(** * Recipe Book backend: validation rules, file store and HTTP handlers

    A shallow embedding of [server.js] and [src/validation/backend.js],
    and the properties of them that the specification states.

    Conventions of the embedding.
    - A JavaScript string is the [string] of its UTF-8 bytes.  The code
      only ever compares [length] with zero, which does not depend on the
      encoding.
    - A JavaScript object used as a record or as a map is an association
      list in insertion order with distinct keys ([obj_set] keeps them
      distinct), which is also the order in which it is serialised.
    - The recipes table is a finite map from row id to row, the thumbnail
      directory a finite set of paths relative to [__dirname].
    - A handler is a function of the world it runs in; what is outside
      the program's control (a failing SQL statement, a failing [unlink],
      the clock, how JavaScript, yup and SQLite print a number or a value)
      is read from an environment [Env]. Each handler is one
      atomic step: interleavings of concurrent requests are not modelled. *)

From Stdlib Require Import Ascii String QArith.
From stdpp Require Import base option list strings pretty sorting gmap fin_maps fin_sets.

Set Warnings "-register-all".

Local Open Scope Z_scope.

(** ** JavaScript values *)

(** An IEEE double, as far as the code looks at it: it is tested for
    truthiness, printed by JavaScript or by SQLite ([number_string] and
    [sql_number_text] below) and passed on. *)
Inductive number :=
  | NaN
  | Infinity (negative : bool)
  | Finite (q : Q).

Inductive value :=
  | VUndefined
  | VNull
  | VBool (b : bool)
  | VNum (n : number)
  | VStr (s : string)
  | VArr (items : list value)
  | VObj (props : list (string * value)).

Definition object := list (string * value).

Definition number_truthy (n : number) : bool :=
  match n with
  | NaN => false
  | Infinity _ => true
  | Finite q => negb (Qnum q =? 0)
  end.

(** ToBoolean: what [!id] negates. *)
Definition truthy (v : value) : bool :=
  match v with
  | VUndefined | VNull => false
  | VBool b => b
  | VNum n => number_truthy n
  | VStr s => negb (String.eqb s "")
  | VArr _ | VObj _ => true
  end.

(** Own-property read [o[k]]. *)
Fixpoint obj_get (k : string) (o : object) : option value :=
  match o with
  | [] => None
  | (k', v) :: o' => if decide (k' = k) then Some v else obj_get k o'
  end.

(** Own-property write on an existing object: replace in place, or append
    as the newest property. *)
Fixpoint obj_set (k : string) (v : value) (o : object) : object :=
  match o with
  | [] => [(k, v)]
  | (k', v') :: o' =>
      if decide (k' = k) then (k, v) :: o' else (k', v') :: obj_set k v o'
  end.

(** [o[k] = v] for an object created by a literal and a primitive [v]:
    the key [__proto__] reaches the prototype setter, which ignores a value
    that is neither an object nor null, so no own property appears. *)
Definition js_assign (k : string) (v : value) (o : object) : object :=
  if decide (k = "__proto__") then o else obj_set k v o.

(** [v.k] with [v] any value parsed from JSON (the destructuring
    [const { id } = req.body]); an array has no such named property. *)
Definition get_prop (k : string) (v : value) : value :=
  match v with
  | VObj o => default VUndefined (obj_get k o)
  | _ => VUndefined
  end.


(** ** String.prototype.trim *)

(** White space and line terminators of ECMAScript, by their UTF-8
    encodings: one byte (TAB, LF, VT, FF, CR, SP), two bytes (U+00A0),
    three bytes (U+1680, U+2000..U+200A, U+2028, U+2029, U+202F, U+205F,
    U+3000, U+FEFF). *)
Definition ws1 (a : ascii) : bool :=
  match a with
  | "009" | "010" | "011" | "012" | "013" | " " => true
  | _ => false
  end%char.

Definition ws2 (a b : ascii) : bool :=
  match N_of_ascii a, N_of_ascii b with
  | 194%N, 160%N => true
  | _, _ => false
  end.

Definition ws3 (a b c : ascii) : bool :=
  let x := N_of_ascii a in
  let y := N_of_ascii b in
  let z := N_of_ascii c in
  ((x =? 225) && (y =? 154) && (z =? 128)
   || (x =? 226) && (y =? 128)
        && ((128 <=? z) && (z <=? 138) || (z =? 168) || (z =? 169) || (z =? 175))
   || (x =? 226) && (y =? 129) && (z =? 159)
   || (x =? 227) && (y =? 128) && (z =? 128)
   || (x =? 239) && (y =? 187) && (z =? 191))%N.

(** Drop leading white space, given how to recognise the two- and the
    three-byte characters from the front. *)
Fixpoint strip (w2 : ascii -> ascii -> bool) (w3 : ascii -> ascii -> ascii -> bool)
    (s : string) : string :=
  match s with
  | String a s1 =>
      if ws1 a then strip w2 w3 s1 else
      match s1 with
      | String b s2 =>
          if w2 a b then strip w2 w3 s2 else
          match s2 with
          | String c s3 => if w3 a b c then strip w2 w3 s3 else s
          | EmptyString => s
          end
      | EmptyString => s
      end
  | EmptyString => s
  end.

Definition trimStart (s : string) : string := strip ws2 ws3 s.

Definition trimEnd (s : string) : string :=
  String.rev (strip (fun a b => ws2 b a) (fun a b c => ws3 c b a) (String.rev s)).

Definition trim (s : string) : string := trimEnd (trimStart s).

(** ** Validation rules ([src/validation/backend.js]) *)

(** One entry of [ValidationError.inner]: the [path] of the field (absent
    for an error on the whole value) and the messages [errors]. *)
Record InnerError := { path : option string; errors_of : list string }.

(** The error [validate] rejects with. *)
Record ValidationError := { inner : list InnerError }.

(** [error.errors[0]] *)
Definition first_message (e : InnerError) : value :=
  match errors_of e with
  | m :: _ => VStr m
  | [] => VUndefined
  end.

(** The callback of [forEach] in [transformYupErrorsIntoObject]. *)
Definition record_error (validationErrors : object) (error : InnerError) : object :=
  match path error with
  | Some p => js_assign p (first_message error) validationErrors
  | None => validationErrors
  end.

(** [transformYupErrorsIntoObject]: [forEach] over [errors.inner], from an
    empty object. *)
Definition transformYupErrorsIntoObject (errors : ValidationError) : object :=
  fold_left record_error (inner errors) [].

(** [value.toString] is an own property of the object and truthy. Parsed
    from a request it is no function, so that calling it throws. *)
Definition cast_throws (props : list (string * value)) : bool :=
  match obj_get "toString" props with
  | Some v => truthy v
  | None => false
  end.

(** A value of [req.body], as the body parser left it for the handler. Of
    a multipart form multer makes a text field a string, a name that the
    form repeats an array and a name with brackets an object;
    [express.json()] hands on whatever the JSON body holds; a name that the
    body lacks reads [undefined].

    One kind of value is left out, by [plain]: an object with a truthy own
    property [toString]. There the cast of yup's [string()] calls
    [value.toString()] and throws a TypeError, which is no ValidationError;
    [transformYupErrorsIntoObject] then throws in the [catch] of the
    handler, and the handler sends no answer at all. *)
Inductive field :=
  | FUndefined
  | FNull
  | FText (s : string)
  | FBool (b : bool)
  | FNum (n : number)
  | FArr (items : list value)
  | FObj (props : list (string * value)) (plain : cast_throws props = false).

Definition field_value (v : field) : value :=
  match v with
  | FUndefined => VUndefined
  | FNull => VNull
  | FText s => VStr s
  | FBool b => VBool b
  | FNum n => VNum n
  | FArr items => VArr items
  | FObj props _ => VObj props
  end.

(** What the embedding leaves to JavaScript and to yup:
    - [number_string n]: the string [n.toString()] of a number, given by
      its first character and the rest, for it is never empty;
    - [print_value v]: the text [printValue(v, true)] with which the
      message of a type error quotes the value. *)
Record Js := {
  number_string : number -> ascii * string;
  print_value : value -> string
}.

Definition text_of (p : ascii * string) : string := String p.1 p.2.

(** yup's default message of [required], with the label for the path. *)
Definition required_error (key label : string) : InnerError :=
  {| path := Some key; errors_of := [label +:+ " is a required field"] |}.

(** yup's default message of a type error, for a value that no cast
    changed. *)
Definition type_error (js : Js) (key label : string) (v : field) : InnerError :=
  {| path := Some key;
     errors_of := [label +:+ " must be a `string` type, but the final value was: `"
                   +:+ print_value js (field_value v) +:+ "`."] |}.

(** The transform of [string()], which [validate] applies first: a value
    that is no string is replaced by its [toString()], but for [undefined]
    and [null], for an array and for an object that prints as
    [[object Object]] or has no [toString]. *)
Definition string_cast (js : Js) (v : field) : field :=
  match v with
  | FBool b => FText (if b then "true" else "false")
  | FNum n => FText (text_of (number_string js n))
  | FUndefined | FNull | FText _ | FArr _ | FObj _ _ => v
  end.

(** [string().required().label(l)] at field [key]: after the cast,
    [undefined], [null] and the empty string fail [required], what is
    still no string fails the type check, and a non-empty string is the
    validated value. *)
Definition string_required (js : Js) (key label : string) (v : field)
    : InnerError + string :=
  match string_cast js v with
  | FText s => if String.eqb s "" then inl (required_error key label) else inr s
  | FUndefined | FNull => inl (required_error key label)
  | FBool _ | FNum _ | FArr _ | FObj _ _ => inl (type_error js key label v)
  end.

(** [mixed().required().label(l)] on [req.file ? req.file.filename : null],
    a file name or [null] ([None]): [null] is rejected, the name is the
    validated value. *)
Definition mixed_required (key label : string) (v : option string)
    : InnerError + string :=
  match v with
  | Some s => inr s
  | None => inl (required_error key label)
  end.

(** [mixed().nullable().label(l)]: accepts everything it is given here. *)
Definition mixed_nullable (key label : string) (v : field) : InnerError + field :=
  inr v.

Definition failures {A} (r : InnerError + A) : list InnerError :=
  match r with
  | inl e => [e]
  | inr _ => []
  end.

Record StoreInput := {
  si_title : field;
  si_recipe : field;
  si_thumbnail : option string
}.
Record StoreRecipe := { sr_title : string; sr_recipe : string; sr_thumbnail : string }.

(** [storeRecipe.validate(input, { abortEarly: false })]: every field is
    checked and every failure collected, in the order of the schema. *)
Definition storeRecipe_validate (js : Js) (input : StoreInput)
    : ValidationError + StoreRecipe :=
  let title := string_required js "title" "title" (si_title input) in
  let recipe := string_required js "recipe" "recipe" (si_recipe input) in
  let thumbnail := mixed_required "thumbnail" "thumbnail" (si_thumbnail input) in
  match title, recipe, thumbnail with
  | inr t, inr r, inr th =>
      inr {| sr_title := t; sr_recipe := r; sr_thumbnail := th |}
  | _, _, _ =>
      inl {| inner := failures title ++ failures recipe ++ failures thumbnail |}
  end.

Record EditInput := { ei_id : field; ei_title : field; ei_recipe : field }.
Record EditRecipe := { er_id : string; er_title : string; er_recipe : string }.

(** [editRecipe.validate({ id, title, recipe }, { abortEarly: false })];
    the object carries no [thumbnail], which the nullable rule accepts.
    The promise resolves with the strings the casts gave. *)
Definition editRecipe_validate (js : Js) (input : EditInput)
    : ValidationError + EditRecipe :=
  let id := string_required js "id" "id" (ei_id input) in
  let title := string_required js "title" "title" (ei_title input) in
  let recipe := string_required js "recipe" "recipe" (ei_recipe input) in
  let thumbnail := mixed_nullable "thumbnail" "thumbnail" FUndefined in
  match id, title, recipe, thumbnail with
  | inr i, inr t, inr r, inr _ =>
      inr {| er_id := i; er_title := t; er_recipe := r |}
  | _, _, _, _ =>
      inl {| inner := failures id ++ failures title ++ failures recipe
                        ++ failures thumbnail |}
  end.

(** [!n > 0] parses as [(!n) > 0]: the negation is a boolean, which the
    comparison reads as 1 or 0. *)
Definition not_gt0 (n : nat) : bool :=
  (0 <? (if negb (negb (Nat.eqb n 0)) then 1 else 0)).

(** [n > 0] *)
Definition gt0 (n : nat) : bool := negb (Nat.eqb n 0).

Section Errors.

(** [checkImageType] is called by [errors] and neither defined nor
    imported in [backend.js]: it is a parameter of [errors] here. *)
Variable checkImageType : string -> bool.

(** [errors([title, recipe, imgType = ``], edit = false)]: an absent
    [imgType] or [edit] takes its default. *)
Definition errors (args : string * string * option string) (edit : option bool)
    : object :=
  let '(title, recipe, imgType) := args in
  let imgType := default "" imgType in
  let edit := default false edit in
  let errorMessages : object := [] in
  let errorMessages :=
    if negb edit then
      let errorMessages :=
        if not_gt0 (String.length (trim title))
        then js_assign "title" (VStr "Title is required.") errorMessages
        else errorMessages in
      let errorMessages :=
        if not_gt0 (String.length (trim recipe))
        then js_assign "recipe" (VStr "Recipe is required.") errorMessages
        else errorMessages in
      if not_gt0 (String.length (trim imgType))
      then js_assign "imgType" (VStr "Image is required.") errorMessages
      else errorMessages
    else errorMessages in
  let errorMessages :=
    if edit then
      if not_gt0 (String.length (trim title))
         && not_gt0 (String.length (trim recipe))
      then js_assign "general"
             (VStr "At least one of title or recipe must be filled.")
             errorMessages
      else errorMessages
    else errorMessages in
  if gt0 (String.length (trim imgType)) && negb (checkImageType imgType)
  then js_assign "imgType"
         (VStr "Invalid image type. Only jpg, jpeg, and png are allowed.")
         errorMessages
  else errorMessages.

End Errors.

(** Modelled from the spec: [checkImageType], which [errors] calls and no
    file under [src/] defines; the specification says that only [jpg],
    [jpeg] and [png] are accepted. *)
Definition checkImageType (imgType : string) : bool :=
  bool_decide (imgType ∈ ["jpg"; "jpeg"; "png"]).

(** ** The world of the server ([server.js]) *)

(** A row of [recipes]. The handlers below are the table's only writers;
    what they bind to [title], [recipe] and [thumbnail] the TEXT columns
    hold as text ([bound_text]). *)
Record Recipe := {
  r_id : Z;
  r_title : string;
  r_recipe : string;
  r_thumbnail : string;
  r_timestamp : string
}.

(** The table, SQLite's AUTOINCREMENT counter (the largest row id handed
    out so far) and the files under [__dirname]. *)
Record World := {
  table : gmap Z Recipe;
  seq : Z;
  files : gset string
}.

Inductive SqlError := SqlFailure.

(** The error of an [fs] callback, of which the code reads [code]. *)
Record FsError := { code : string }.

(** What the run of a handler cannot decide:
    - [sql_rowid v]: the row id, if any, that [WHERE id = ?] selects when
      [v] is bound to the parameter (the driver's binding and SQLite's
      comparison with an INTEGER column);
    - whether the first [db.get], the [stmt.run] and the [db.get] that
      re-reads the row fail;
    - whether [fs.unlink] fails for a reason of its own, and with which
      code;
    - the text CURRENT_TIMESTAMP yields;
    - [js]: how JavaScript prints a number and yup a value;
    - [sql_number_text n]: the text a TEXT column holds once the number [n]
      was bound to its parameter, given by its first character and the
      rest, for it is never empty. *)
Record Env := {
  sql_rowid : value -> option Z;
  select_fails : bool;
  write_fails : bool;
  reselect_fails : bool;
  unlink_fails : option string;
  now : string;
  js : Js;
  sql_number_text : number -> ascii * string
}.

(** What a run does besides answering. *)
Inductive Event :=
  | EvLog (message : value)
  | EvDbGet (sql : string)
  | EvDbRun (sql : string)
  | EvUnlink (filePath : string)
  | EvWriteFile (filePath : string).

(** A computation reads the environment, changes the world and leaves a
    trace of events. *)
Definition M (A : Type) : Type := Env -> World -> A * World * list Event.

#[global] Instance M_ret : MRet M := fun A a _ w => (a, w, []).

#[global] Instance M_bind : MBind M := fun A B k m e w =>
  let '(a, w1, ev1) := m e w in
  let '(b, w2, ev2) := k a e w1 in
  (b, w2, ev1 ++ ev2).

Definition result {A} (o : A * World * list Event) : A := o.1.1.
Definition world {A} (o : A * World * list Event) : World := o.1.2.
Definition events {A} (o : A * World * list Event) : list Event := o.2.

(** The paths [fs.unlink] was called with, in order. *)
Definition unlinked (evs : list Event) : list string :=
  omap (fun ev => match ev with EvUnlink p => Some p | _ => None end) evs.

(** The statements sent to the database, in order. *)
Definition statements (evs : list Event) : list string :=
  omap (fun ev => match ev with
                  | EvDbGet sql | EvDbRun sql => Some sql
                  | _ => None
                  end) evs.

(** The first argument of each [console.error], in order. *)
Definition logged (evs : list Event) : list value :=
  omap (fun ev => match ev with EvLog m => Some m | _ => None end) evs.

Definition console_error (message : value) : M unit :=
  fun _ w => (tt, w, [EvLog message]).

(** [await schema.validate(input, { abortEarly: false })]: the promise
    rejects ([inl]) or resolves ([inr]). *)
Definition yup_validate {A B} (schema : Js -> A -> ValidationError + B) (input : A)
    : M (ValidationError + B) :=
  fun e w => (schema (js e) input, w, []).

(** *** The database *)

Definition with_table (t : gmap Z Recipe) (w : World) : World :=
  {| table := t; seq := seq w; files := files w |}.

Definition with_files (fs : gset string) (w : World) : World :=
  {| table := table w; seq := seq w; files := fs |}.

(** [db.get(sql, [id], callback)] with [WHERE id = ?]: the callback's
    [(err, row)]. *)
Definition db_get (sql : string) (fails : Env -> bool) (id : value)
    : M (SqlError + option Recipe) :=
  fun e w =>
    (if fails e then inl SqlFailure
     else inr (i ← sql_rowid e id; table w !! i),
     w, [EvDbGet sql]).

(** The same with the integer [this.lastID] for the parameter. *)
Definition db_get_rowid (sql : string) (fails : Env -> bool) (i : Z)
    : M (SqlError + option Recipe) :=
  fun e w =>
    (if fails e then inl SqlFailure else inr (table w !! i),
     w, [EvDbGet sql]).

(** [INSERT INTO recipes (title, recipe, thumbnail) VALUES (?, ?, ?)]:
    the callback's [err], or [this.lastID]. The table starts empty and
    rows enter it only here, so the next id is one more than [seq]. *)
Definition db_insert (title recipe thumbnail : string) : M (SqlError + Z) :=
  fun e w =>
    let sql := "INSERT INTO recipes (title, recipe, thumbnail) VALUES (?, ?, ?)" in
    if write_fails e then (inl SqlFailure, w, [EvDbRun sql])
    else
      let i := seq w + 1 in
      let row := {| r_id := i; r_title := title; r_recipe := recipe;
                    r_thumbnail := thumbnail; r_timestamp := now e |} in
      (inr i,
       {| table := <[i := row]> (table w); seq := i; files := files w |},
       [EvDbRun sql]).

(** The text a TEXT column holds once a value of the request was bound to
    its parameter: a string as it is; a boolean, which the driver binds as
    the integer 1 or 0, as that digit; a number as [sql_number_text] has
    it. Nothing else is ever bound: the one statement with such a
    parameter runs after [string().required()] accepted the value. *)
Definition bound_text (e : Env) (v : field) : string :=
  match v with
  | FText s => s
  | FBool b => if b then "1" else "0"
  | FNum n => text_of (sql_number_text e n)
  | FUndefined | FNull | FArr _ | FObj _ _ => ""
  end.

(** [UPDATE recipes SET title = ?, recipe = ?, thumbnail = ? WHERE id = ?],
    with [title] and [recipe] as the request has them. *)
Definition db_update (title recipe : field) (thumbnail : string) (id : value)
    : M (option SqlError) :=
  fun e w =>
    let sql := "UPDATE recipes SET title = ?, recipe = ?, thumbnail = ? WHERE id = ?" in
    if write_fails e then (Some SqlFailure, w, [EvDbRun sql])
    else
      let set row := {| r_id := r_id row; r_title := bound_text e title;
                        r_recipe := bound_text e recipe;
                        r_thumbnail := thumbnail;
                        r_timestamp := r_timestamp row |} in
      (None,
       match sql_rowid e id with
       | Some i => with_table (alter set i (table w)) w
       | None => w
       end,
       [EvDbRun sql]).

(** [DELETE FROM recipes WHERE id = ?] *)
Definition db_delete (id : value) : M (option SqlError) :=
  fun e w =>
    let sql := "DELETE FROM recipes WHERE id = ?" in
    if write_fails e then (Some SqlFailure, w, [EvDbRun sql])
    else
      (None,
       match sql_rowid e id with
       | Some i => with_table (delete i (table w)) w
       | None => w
       end,
       [EvDbRun sql]).

(** *** The file store *)

(** [path.join] of two segments. The names joined below are the fixed
    directories and the file names multer generated, which hold no
    separator, so that nothing is left to normalise. *)
Definition path_join (a b : string) : string := a +:+ "/" +:+ b.

(** [fs.unlink(filePath, callback)]: the callback's [err]. *)
Definition fs_unlink (filePath : string) : M (option FsError) :=
  fun e w =>
    match unlink_fails e with
    | Some c => (Some {| code := c |}, w, [EvUnlink filePath])
    | None =>
        if decide (filePath ∈ files w)
        then (None, with_files (files w ∖ {[filePath]}) w, [EvUnlink filePath])
        else (Some {| code := "ENOENT" |}, w, [EvUnlink filePath])
    end.

(** [deleteFile]: the promise rejects with the error ([inl]) or resolves
    ([inr]). *)
Definition deleteFile (filePath : string) : M (FsError + unit) :=
  err ← fs_unlink filePath;
  match err with
  | Some err =>
      if negb (String.eqb (code err) "ENOENT") then mret (inl err)
      else mret (inr tt)
  | None => mret (inr tt)
  end.

(** The upload multer accepted for the field [thumbnail]. [filename] is
    the name the [filename] callback of the storage generated for it. *)
Record File := { originalname : string; filename : string }.

(** The [destination] callback of the storage, below [__dirname]. *)
Definition destination (fieldname : string) : string :=
  let destinationFolder :=
    if String.eqb fieldname "thumbnail" then "thumbnail" else "" in
  "public/assets/images/" +:+ destinationFolder.

(** The [filename] callback of the storage. [Date.now()] and
    [Math.round(Math.random() * 1e9)] are non-negative integers, which the
    concatenation prints in decimal; [path.extname] is Node's and is taken
    as it comes. *)
Definition storage_filename (extname : string -> string) (date_now random : N)
    (originalname : string) : string :=
  let uniqueSuffix := pretty date_now +:+ "-" +:+ pretty random in
  uniqueSuffix +:+ extname originalname.

(** [upload.single("thumbnail")]: writes the upload, if there is one,
    before the handler runs. *)
Definition upload_single (file : option File) : M unit :=
  fun _ w =>
    match file with
    | Some f =>
        let p := path_join (destination "thumbnail") (filename f) in
        (tt, with_files ({[p]} ∪ files w) w, [EvWriteFile p])
    | None => (tt, w, [])
    end.

(** *** The handlers *)

(** [res.status(status).json(body)] *)
Record Response := { status : Z; body : value }.

(** A request to one of the two routes behind [upload.single], as its
    handler reads it: [req.body.id], [req.body.title], [req.body.recipe]
    and [req.file]. The body is the one multer read from a multipart form
    or, for a request in JSON, the one [express.json()] parsed, which
    multer leaves alone and to which it adds no file. *)
Record Multipart := {
  body_id : field;
  body_title : field;
  body_recipe : field;
  file : option File
}.

Definition sendErrorResponse (statusCode : Z) (message : value) : M Response :=
  console_error message;;
  mret {| status := statusCode; body := VObj [("error", message)] |}.

(** A row as the driver hands it to the callback; no row is [undefined]. *)
Definition row_json (row : option Recipe) : value :=
  match row with
  | Some r =>
      VObj [("id", VNum (Finite (inject_Z (r_id r))));
            ("title", VStr (r_title r));
            ("recipe", VStr (r_recipe r));
            ("thumbnail", VStr (r_thumbnail r));
            ("timestamp", VStr (r_timestamp r))]
  | None => VUndefined
  end.

(** POST /add-recipe, after [upload.single("thumbnail")]. *)
Definition add_recipe (req : Multipart) : M Response :=
  validated ← yup_validate storeRecipe_validate
                {| si_title := body_title req;
                   si_recipe := body_recipe req;
                   si_thumbnail := match file req with
                                   | Some f => Some (filename f)
                                   | None => None
                                   end |};
  match validated with
  | inr validatedRecipe =>
      r ← db_insert (sr_title validatedRecipe) (sr_recipe validatedRecipe)
                    (sr_thumbnail validatedRecipe);
      match r with
      | inl err =>
          console_error (VStr "Error inserting recipe into DB:");;
          sendErrorResponse 500 (VStr "Error inserting recipe into DB")
      | inr insertedId =>
          g ← db_get_rowid "SELECT * FROM recipes WHERE id = ?"
                           reselect_fails insertedId;
          match g with
          | inl err =>
              console_error (VStr "Error retrieving inserted recipe:");;
              sendErrorResponse 500 (VStr "Error retrieving inserted recipe")
          | inr recipe =>
              mret {| status := 201;
                      body := VObj [("message", VStr "Recipe submitted successfully");
                                    ("recipe", row_json recipe)] |}
          end
      end
  | inl err =>
      console_error (VStr "Validation error:");;
      sendErrorResponse 400 (VObj (transformYupErrorsIntoObject err))
  end.

(** POST /delete-recipe; [req_body] is the parsed JSON body. *)
Definition delete_recipe (req_body : value) : M Response :=
  let id := get_prop "id" req_body in
  if negb (truthy id) then sendErrorResponse 400 (VStr "ID is required")
  else
    r ← db_get "SELECT thumbnail FROM recipes WHERE id = ?" select_fails id;
    match r with
    | inl err => sendErrorResponse 500 (VStr "Error retrieving record")
    | inr None => sendErrorResponse 404 (VStr "Recipe not found")
    | inr (Some row) =>
        let filePath :=
          path_join (path_join "public" "assets/images/thumbnail")
                    (r_thumbnail row) in
        d ← deleteFile filePath;
        match d with
        | inr _ =>
            err ← db_delete id;
            match err with
            | Some err => sendErrorResponse 500 (VStr "Error deleting recipe")
            | None =>
                mret {| status := 200;
                        body := VObj [("message", VStr "Recipe deleted successfully");
                                      ("id", id)] |}
            end
        | inl fileErr =>
            sendErrorResponse 500 (VStr "Error deleting associated file")
        end
    end.

(** PUT /update-recipe, after [upload.single("thumbnail")]. What the
    schema resolves with is dropped: the statements are given [id],
    [title] and [recipe] as [req.body] has them. *)
Definition update_recipe (req : Multipart) : M Response :=
  let id := field_value (body_id req) in
  let title := body_title req in
  let recipe := body_recipe req in
  validated ← yup_validate editRecipe_validate
                {| ei_id := body_id req; ei_title := title; ei_recipe := recipe |};
  match validated with
  | inr _ =>
      r ← db_get "SELECT thumbnail FROM recipes WHERE id = ?" select_fails id;
      match r with
      | inl err =>
          console_error (VStr "Error retrieving record:");;
          sendErrorResponse 500 (VStr "Error retrieving record")
      | inr None => sendErrorResponse 404 (VStr "Recipe not found")
      | inr (Some row) =>
          let thumbnail := r_thumbnail row in
          thumbnail ←
            match file req with
            | Some req_file =>
                let oldThumbnailPath :=
                  path_join "public/assets/images/thumbnail" thumbnail in
                let thumbnail := filename req_file in
                d ← deleteFile oldThumbnailPath;
                match d with
                | inr _ => mret thumbnail
                | inl fileErr =>
                    console_error (VStr "Error deleting old thumbnail:");;
                    mret thumbnail
                end
            | None => mret thumbnail
            end;
          updateErr ← db_update title recipe thumbnail id;
          match updateErr with
          | Some updateErr =>
              console_error (VStr "Error updating recipe:");;
              sendErrorResponse 500 (VStr "Error updating recipe")
          | None =>
              g ← db_get "SELECT * FROM recipes WHERE id = ?" reselect_fails id;
              match g with
              | inl getErr =>
                  console_error (VStr "Error retrieving updated recipe:");;
                  sendErrorResponse 500 (VStr "Error retrieving updated recipe")
              | inr updatedRecipe =>
                  mret {| status := 200;
                          body := VObj [("message", VStr "Recipe updated successfully");
                                        ("recipe", row_json updatedRecipe)] |}
              end
          end
      end
  | inl err =>
      console_error (VStr "Validation error:");;
      sendErrorResponse 400 (VObj (transformYupErrorsIntoObject err))
  end.

Definition id_le (a b : Z * Recipe) : Prop := a.1 ≤ b.1.

#[global] Instance id_le_dec : RelDecision id_le := fun a b => decide (a.1 ≤ b.1).

(** The rows of the table as a scan of it yields them, by ascending id. *)
Definition rows_by_id (t : gmap Z Recipe) : list Recipe :=
  (merge_sort id_le (map_to_list t)).*2.

(** [db.all(sql, [], callback)]: the callback's [(err, rows)]. *)
Definition db_all (sql : string) : M (SqlError + list Recipe) :=
  fun e w =>
    (if select_fails e then inl SqlFailure else inr (rows_by_id (table w)),
     w, [EvDbGet sql]).

(** GET /get-recipes *)
Definition get_recipes : M Response :=
  r ← db_all "SELECT * FROM recipes";
  match r with
  | inl err => sendErrorResponse 500 (VStr "Error retrieving data")
  | inr rows =>
      mret {| status := 200;
              body := VArr ((fun row => row_json (Some row)) <$> rows) |}
  end.

(** The requests that write: each runs its middleware, then its handler.
    (GET /get-recipes only reads the table.) *)
Inductive Request :=
  | AddRecipe (req : Multipart)
  | DeleteRecipe (req_body : value)
  | UpdateRecipe (req : Multipart).

Definition serve (rq : Request) : M Response :=
  match rq with
  | AddRecipe req => upload_single (file req);; add_recipe req
  | DeleteRecipe req_body => delete_recipe req_body
  | UpdateRecipe req => upload_single (file req);; update_recipe req
  end.

(** The states the server can be in between two requests, from an empty
    table and whatever files the directory holds at the start. *)
Inductive reachable : World -> Prop :=
  | reachable_start fs :
      reachable {| table := ∅; seq := 0; files := fs |}
  | reachable_serve e rq w :
      reachable w -> reachable (world (serve rq e w)).

(** ** Vocabulary of the statements *)

(** The first and the last entry of [inner] that name the field [k]. *)
Fixpoint first_violation (k : string) (l : list InnerError) : option InnerError :=
  match l with
  | [] => None
  | e :: l' => if decide (path e = Some k) then Some e else first_violation k l'
  end.

Fixpoint last_violation (k : string) (l : list InnerError) : option InnerError :=
  match l with
  | [] => None
  | e :: l' =>
      match last_violation k l' with
      | Some e' => Some e'
      | None => if decide (path e = Some k) then Some e else None
      end
  end.

(** A field that [string().required()] accepts: a string that is not
    empty, a number or a boolean. *)
Definition filled (v : field) : Prop :=
  match v with
  | FText s => s ≠ ""
  | FBool _ | FNum _ => True
  | FUndefined | FNull | FArr _ | FObj _ _ => False
  end.


Definition invalid_image_type : value :=
  VStr "Invalid image type. Only jpg, jpeg, and png are allowed.".

(** The path of a thumbnail, as the delete and the edit handler build it. *)
Definition thumbnail_path (name : string) : string :=
  path_join "public/assets/images/thumbnail" name.

Definition set_unlink_fails (u : option string) (e : Env) : Env :=
  {| sql_rowid := sql_rowid e; select_fails := select_fails e;
     write_fails := write_fails e; reselect_fails := reselect_fails e;
     unlink_fails := u; now := now e; js := js e;
     sql_number_text := sql_number_text e |}.

Definition set_write_fails (b : bool) (e : Env) : Env :=
  {| sql_rowid := sql_rowid e; select_fails := select_fails e;
     write_fails := b; reselect_fails := reselect_fails e;
     unlink_fails := unlink_fails e; now := now e; js := js e;
     sql_number_text := sql_number_text e |}.

(** *** The thumbnail invariant *)

(** Every readable row names a file that is on disk. *)
Definition thumbnails_on_disk (w : World) : Prop :=
  forall i r, table w !! i = Some r -> thumbnail_path (r_thumbnail r) ∈ files w.

(** No two rows name the same file. *)
Definition thumbnails_distinct (w : World) : Prop :=
  forall i j r s, table w !! i = Some r -> table w !! j = Some s ->
    r_thumbnail r = r_thumbnail s -> i = j.

Definition consistent (w : World) : Prop :=
  thumbnails_on_disk w ∧ thumbnails_distinct w.

Definition upload (rq : Request) : option File :=
  match rq with
  | AddRecipe req | UpdateRecipe req => file req
  | DeleteRecipe _ => None
  end.

(** The requests that unlink a thumbnail: a delete, and an edit with a
    new file. *)
Definition removes_file (rq : Request) : bool :=
  match rq with
  | DeleteRecipe _ => true
  | UpdateRecipe req => if file req is Some _ then true else false
  | AddRecipe _ => false
  end.

(** A request is undisturbed when the name generated for its upload is
    new to the directory, and when, if it unlinks a thumbnail, its
    [stmt.run] does not fail. *)
Definition undisturbed (rq : Request) (e : Env) (w : World) : Prop :=
  (forall f, upload rq = Some f -> thumbnail_path (filename f) ∉ files w)
  ∧ (removes_file rq = true -> write_fails e = false).

(** The states reached through undisturbed requests only. *)
Inductive reachable_undisturbed : World -> Prop :=
  | undisturbed_start fs :
      reachable_undisturbed {| table := ∅; seq := 0; files := fs |}
  | undisturbed_serve e rq w :
      reachable_undisturbed w -> undisturbed rq e w ->
      reachable_undisturbed (world (serve rq e w)).

(** ** Data for the examples *)

(** Reads a decimal numeral. *)
Fixpoint decimal (acc : Z) (s : string) : option Z :=
  match s with
  | EmptyString => Some acc
  | String a s' =>
      match Ascii.is_nat a with
      | Some d => decimal (10 * acc + Z.of_nat d) s'
      | None => None
      end
  end.

(** A comparison for the examples: an integral number selects the row of
    that id, a non-empty decimal numeral too, nothing else does. *)
Definition example_rowid (v : value) : option Z :=
  match v with
  | VNum (Finite q) => if (Qden q =? 1)%positive then Some (Qnum q) else None
  | VStr (String a s) => decimal 0 (String a s)
  | _ => None
  end.

(** A printer of numbers for the examples. It is exact on the integers
    below 2^31 in absolute value, which JavaScript and SQLite both print
    in decimal and which are all the examples use; of another finite
    number it prints the integer part. *)
Definition example_number_text (n : number) : ascii * string :=
  match n with
  | NaN => ("N"%char, "aN")
  | Infinity false => ("I"%char, "nfinity")
  | Infinity true => ("-"%char, "Infinity")
  | Finite q =>
      match pretty (Qnum q `quot` Zpos (Qden q)) with
      | String a s => (a, s)
      | EmptyString => ("0"%char, "")
      end
  end.

(** A printer of values for the examples, which abridges what it prints:
    the examples do not depend on the text. *)
Definition example_print_value (v : value) : string :=
  match v with
  | VArr _ => "[...]"
  | VObj _ => "{...}"
  | _ => ""
  end.

Definition example_js : Js :=
  {| number_string := example_number_text; print_value := example_print_value |}.

Definition calm : Env :=
  {| sql_rowid := example_rowid; select_fails := false; write_fails := false;
     reselect_fails := false; unlink_fails := None;
     now := "2024-01-01 00:00:00"; js := example_js;
     sql_number_text := example_number_text |}.

Definition empty_world : World := {| table := ∅; seq := 0; files := ∅ |}.

Definition soup_upload : File :=
  {| originalname := "soup.jpg"; filename := "1704067200000-123456789.jpg" |}.

Definition soup : Multipart :=
  {| body_id := FUndefined; body_title := FText "Soup";
     body_recipe := FText "Boil water"; file := Some soup_upload |}.

(** The world after the soup recipe was added to an empty one. *)
Definition soup_world : World := world (serve (AddRecipe soup) calm empty_world).

Definition title_twice : ValidationError :=
  {| inner :=
       [ {| path := Some "title"; errors_of := ["title is a required field"] |};
         {| path := Some "title";
            errors_of := ["title must be at least 3 characters"] |} ] |}.


Definition untitled : Multipart :=
  {| body_id := FUndefined; body_title := FUndefined;
     body_recipe := FText "Boil water"; file := Some soup_upload |}.

Definition soup_edit : Multipart :=
  {| body_id := FText "1"; body_title := FText "Soup";
     body_recipe := FText "Simmer"; file := None |}.

(** An edit in JSON whose title is [true], and an edit whose form sends
    the title twice. *)
Definition affirmed : Multipart :=
  {| body_id := FText "1"; body_title := FBool true;
     body_recipe := FText "Simmer"; file := None |}.

Definition title_sent_twice : Multipart :=
  {| body_id := FText "1"; body_title := FArr [VStr "a"; VStr "b"];
     body_recipe := FText "Simmer"; file := None |}.

Definition new_upload : File :=
  {| originalname := "bowl.png"; filename := "1704070800000-42.png" |}.

Definition soup_retake : Multipart :=
  {| body_id := FText "1"; body_title := FText "Soup";
     body_recipe := FText "Simmer"; file := Some new_upload |}.

(** The soup recipe, and a delete of it whose DELETE statement fails. *)
Definition delete_soup : value := VObj [("id", VNum (Finite 1))].

Definition orphaned_world : World :=
  world (serve (DeleteRecipe delete_soup) (set_write_fails true calm) soup_world).

(** ** Vocabulary of the further properties *)

(** [filled], as a test. *)
Definition is_filled (v : field) : bool :=
  match v with
  | FText s => negb (String.eqb s "")
  | FBool _ | FNum _ => true
  | FUndefined | FNull | FArr _ | FObj _ _ => false
  end.

(** The string that the cast of [string()] makes of a value that
    [string().required()] accepts. *)
Definition cast_text (js : Js) (v : field) : string :=
  match string_cast js v with
  | FText s => s
  | _ => ""
  end.

(** The entry a failed [required] rule leaves in the mapping of errors. *)
Definition field_error (k : string) (ok : bool) : object :=
  if ok then [] else [(k, VStr (k +:+ " is a required field"))].

(** The entry that the field [k] of a request leaves in the mapping of
    errors when it holds [v]: none for a value that is [filled], the type
    error for an array and for an object, the message of [required] for
    whatever else. *)
Definition text_error (js : Js) (k : string) (v : field) : object :=
  match v with
  | FArr _ | FObj _ _ =>
      [(k, VStr (k +:+ " must be a `string` type, but the final value was: `"
                 +:+ print_value js (field_value v) +:+ "`."))]
  | _ => field_error k (is_filled v)
  end.

(** A failure of nothing: the environment [e] with every flag lowered. *)
Definition unfailing (e : Env) : Prop :=
  select_fails e = false ∧ write_fails e = false ∧ reselect_fails e = false
  ∧ unlink_fails e = None.

(** A request whose title and recipe are text that passes [required]. *)
Definition valid_text (req : Multipart) (title recipe : string) : Prop :=
  body_title req = FText title ∧ title ≠ ""
  ∧ body_recipe req = FText recipe ∧ recipe ≠ "".

(** The row a request addresses: the next id for a create, the row its
    [id] selects for a delete and for an edit. *)
Definition target (rq : Request) (e : Env) (w : World) : option Z :=
  match rq with
  | AddRecipe _ => Some (seq w + 1)
  | DeleteRecipe req_body => sql_rowid e (get_prop "id" req_body)
  | UpdateRecipe req =>
      match body_id req with
      | FUndefined | FNull | FArr _ | FObj _ _ => None
      | id => sql_rowid e (field_value id)
      end
  end.

(** The path multer wrote for a request, if any. *)
Definition uploaded (rq : Request) : gset string :=
  match upload rq with
  | Some f => {[thumbnail_path (filename f)]}
  | None => ∅
  end.

(** What a request can do to the table: nothing, insert a row under the
    next id, delete a row, or rewrite a row in place. *)
Inductive table_step (e : Env) (w w' : World) : Prop :=
  | step_none :
      table w' = table w -> seq w' = seq w -> table_step e w w'
  | step_insert t r th :
      t ≠ "" -> r ≠ "" ->
      table w' = <[seq w + 1 := {| r_id := seq w + 1; r_title := t; r_recipe := r;
                                   r_thumbnail := th; r_timestamp := now e |}]>
                   (table w) ->
      seq w' = seq w + 1 -> table_step e w w'
  | step_delete i :
      table w' = delete i (table w) -> seq w' = seq w -> table_step e w w'
  | step_rewrite i row t r th :
      table w !! i = Some row -> t ≠ "" -> r ≠ "" ->
      table w' = <[i := {| r_id := r_id row; r_title := t; r_recipe := r;
                           r_thumbnail := th; r_timestamp := r_timestamp row |}]>
                   (table w) ->
      seq w' = seq w -> table_step e w w'.

(** A decimal digit, and a string of decimal digits. *)
Definition is_digit (a : ascii) : bool :=
  match Ascii.is_nat a with
  | Some _ => true
  | None => false
  end.

Fixpoint all_digits (s : string) : bool :=
  match s with
  | EmptyString => true
  | String a s' => is_digit a && all_digits s'
  end.

(** What [path.extname] returns: nothing, or a dot and what follows it. *)
Definition dotted (ext : string) : Prop :=
  ext = "" ∨ exists s, ext = String "." s.

(** [c] occurs in [s]. *)
Fixpoint has_char (c : ascii) (s : string) : bool :=
  match s with
  | EmptyString => false
  | String a s' => Ascii.eqb a c || has_char c s'
  end.

(** * Properties *)

(** ** The definitions at work *)

Example trim_both_ends : trim (String "009" "  a b  ") = "a b".
Proof. reflexivity. Qed.

Example trim_no_break_space : trim (String "194" (String "160" "png ")) = "png".
Proof. reflexivity. Qed.

Example errors_on_empty_create :
  errors checkImageType ("", " ", None) None
  = [("title", VStr "Title is required.");
     ("recipe", VStr "Recipe is required.");
     ("imgType", VStr "Image is required.")].
Proof. reflexivity. Qed.

Example errors_on_edit_with_title :
  errors checkImageType ("Soup", "", None) (Some true) = [].
Proof. reflexivity. Qed.

Example errors_on_edit_without_text :
  errors checkImageType ("", "", Some "bmp") (Some true)
  = [("general", VStr "At least one of title or recipe must be filled.");
     ("imgType", invalid_image_type)].
Proof. reflexivity. Qed.

Example storeRecipe_collects_every_failure :
  storeRecipe_validate example_js
    {| si_title := FUndefined; si_recipe := FText ""; si_thumbnail := None |}
  = inl {| inner := [required_error "title" "title";
                     required_error "recipe" "recipe";
                     required_error "thumbnail" "thumbnail"] |}.
Proof. reflexivity. Qed.

(** A title that the form sends twice reaches the schema as an array and
    is a type error; a number is cast to its string. *)
Example storeRecipe_casts_and_checks_type :
  storeRecipe_validate example_js
    {| si_title := FArr [VStr "a"; VStr "b"]; si_recipe := FNum (Finite 7);
       si_thumbnail := Some "a.jpg" |}
  = inl {| inner := [type_error example_js "title" "title"
                       (FArr [VStr "a"; VStr "b"])] |}
  ∧ storeRecipe_validate example_js
      {| si_title := FBool true; si_recipe := FNum (Finite 7);
         si_thumbnail := Some "a.jpg" |}
    = inr {| sr_title := "true"; sr_recipe := "7"; sr_thumbnail := "a.jpg" |}.
Proof. split; reflexivity. Qed.

(** The scenario of the specification: the soup recipe is created. *)
Example add_soup :
  result (serve (AddRecipe soup) calm empty_world)
  = {| status := 201;
       body := VObj [("message", VStr "Recipe submitted successfully");
                     ("recipe",
                      VObj [("id", VNum (Finite 1));
                            ("title", VStr "Soup");
                            ("recipe", VStr "Boil water");
                            ("thumbnail", VStr "1704067200000-123456789.jpg");
                            ("timestamp", VStr "2024-01-01 00:00:00")])] |}.
Proof. reflexivity. Qed.

Example delete_soup_succeeds :
  result (serve (DeleteRecipe delete_soup) calm soup_world)
  = {| status := 200;
       body := VObj [("message", VStr "Recipe deleted successfully");
                     ("id", VNum (Finite 1))] |}
  ∧ table (world (serve (DeleteRecipe delete_soup) calm soup_world)) !! 1 = None
  ∧ elements (files (world (serve (DeleteRecipe delete_soup) calm soup_world))) = [].
Proof. repeat split; reflexivity. Qed.

(** ** Objects *)

Lemma obj_get_set (k k' : string) (v : value) (o : object) :
  obj_get k' (obj_set k v o) = if decide (k = k') then Some v else obj_get k' o.
Proof.
  induction o as [|[k0 v0] o IH]; simpl.
  - destruct (decide (k = k')); reflexivity.
  - destruct (decide (k0 = k)) as [->|Hk0]; simpl.
    + destruct (decide (k = k')); reflexivity.
    + rewrite IH. destruct (decide (k0 = k')) as [->|]; [|reflexivity].
      destruct (decide (k = k')); congruence.
Qed.

Lemma obj_get_assign (k k' : string) (v : value) (o : object) :
  k' ≠ "__proto__" ->
  obj_get k' (js_assign k v o) = if decide (k = k') then Some v else obj_get k' o.
Proof.
  intros Hk'. unfold js_assign.
  destruct (decide (k = "__proto__")) as [->|_].
  - destruct (decide ("__proto__" = k')); congruence.
  - apply obj_get_set.
Qed.

Lemma obj_set_keys (k : string) (v : value) (o : object) :
  (obj_set k v o).*1 = if decide (k ∈ o.*1) then o.*1 else o.*1 ++ [k].
Proof.
  induction o as [|[k0 v0] o IH].
  - cbn. destruct (decide (k ∈ [])) as [H|_]; [inversion H | reflexivity].
  - cbn [obj_set]. destruct (decide (k0 = k)) as [->|Hne];
      rewrite !fmap_cons; cbn [fst].
    + rewrite decide_True by left. reflexivity.
    + rewrite IH. destruct (decide (k ∈ o.*1)) as [Hin|Hout].
      * rewrite decide_True by (right; exact Hin). reflexivity.
      * rewrite decide_False; [reflexivity|].
        intros [?|?]%elem_of_cons; congruence.
Qed.

Lemma obj_set_NoDup (k : string) (v : value) (o : object) :
  NoDup o.*1 -> NoDup (obj_set k v o).*1.
Proof.
  intros Ho. rewrite obj_set_keys.
  destruct (decide (k ∈ o.*1)) as [|Hout]; [exact Ho|].
  apply NoDup_app. split; [exact Ho|]. split.
  - intros x Hx ->%list_elem_of_singleton. contradiction.
  - apply NoDup_singleton.
Qed.

Lemma js_assign_NoDup (k : string) (v : value) (o : object) :
  NoDup o.*1 -> NoDup (js_assign k v o).*1.
Proof.
  unfold js_assign. destruct (decide (k = "__proto__")); [auto|apply obj_set_NoDup].
Qed.

(** ** The shape of validation failures *)

Lemma record_error_get (k : string) (acc : object) (e : InnerError) :
  k ≠ "__proto__" ->
  obj_get k (record_error acc e) =
    if decide (path e = Some k) then Some (first_message e) else obj_get k acc.
Proof.
  intros Hk. unfold record_error. destruct (path e) as [p|].
  - rewrite obj_get_assign by exact Hk.
    destruct (decide (p = k)) as [->|Hne].
    + rewrite decide_True by reflexivity. reflexivity.
    + rewrite decide_False by congruence. reflexivity.
  - rewrite decide_False by discriminate. reflexivity.
Qed.

Lemma fold_record_error_get (k : string) (l : list InnerError) (acc : object) :
  k ≠ "__proto__" ->
  obj_get k (fold_left record_error l acc) =
    match last_violation k l with
    | Some e => Some (first_message e)
    | None => obj_get k acc
    end.
Proof.
  intros Hk. revert acc. induction l as [|e l IH]; intros acc; simpl.
  - reflexivity.
  - rewrite IH. destruct (last_violation k l); [reflexivity|].
    rewrite record_error_get by exact Hk.
    destruct (decide (path e = Some k)); reflexivity.
Qed.

Lemma fold_record_error_NoDup (l : list InnerError) (acc : object) :
  NoDup acc.*1 -> NoDup (fold_left record_error l acc).*1.
Proof.
  revert acc. induction l as [|e l IH]; intros acc Hacc; simpl; [exact Hacc|].
  apply IH. unfold record_error.
  destruct (path e); [apply js_assign_NoDup|]; exact Hacc.
Qed.

(** C9 (as amended). The mapping [transformYupErrorsIntoObject] returns
    has pairwise distinct keys, and a field other than [__proto__] is
    mapped to the first message of the LAST entry of [inner] that names
    it (to nothing when no entry does): each later violation of a field
    overwrites the earlier one. *)
Theorem transform_last_violation_wins (errors : ValidationError) (k : string) :
  k ≠ "__proto__" ->
  NoDup (transformYupErrorsIntoObject errors).*1
  ∧ obj_get k (transformYupErrorsIntoObject errors)
    = first_message <$> last_violation k (inner errors).
Proof.
  intros Hk. split.
  - apply (fold_record_error_NoDup (inner errors) []). constructor.
  - unfold transformYupErrorsIntoObject.
    rewrite fold_record_error_get by exact Hk.
    destruct (last_violation k (inner errors)); reflexivity.
Qed.

Lemma transform_last_violation_wins_witness :
  "title" ≠ "__proto__"
  ∧ NoDup (transformYupErrorsIntoObject title_twice).*1
  ∧ obj_get "title" (transformYupErrorsIntoObject title_twice)
    = Some (VStr "title must be at least 3 characters").
Proof.
  split; [discriminate|].
  exact (transform_last_violation_wins title_twice "title" ltac:(discriminate)).
Defined.

(** C9 (as stated) fails: of two violations of [title], the message kept
    is not the one of the first. *)
Lemma transform_first_violation_overwritten :
  first_violation "title" (inner title_twice)
    = Some {| path := Some "title"; errors_of := ["title is a required field"] |}
  ∧ obj_get "title" (transformYupErrorsIntoObject title_twice)
    ≠ Some (VStr "title is a required field").
Proof. split; [reflexivity|]. vm_compute. discriminate. Qed.

(** ** The two validation paths *)

Lemma not_gt0_length (s : string) :
  not_gt0 (String.length s) = bool_decide (s = "").
Proof. destruct s; reflexivity. Qed.

Lemma gt0_length (s : string) :
  gt0 (String.length s) = negb (bool_decide (s = "")).
Proof. destruct s; reflexivity. Qed.

Lemma is_filled_spec (v : field) : is_filled v = true <-> filled v.
Proof.
  destruct v as [| |[|a s]| | | |]; cbn; split; try discriminate; try contradiction;
    try reflexivity; congruence.
Qed.

(** What [string().required()] does with each value. *)
Lemma string_required_cases (js : Js) (key label : string) (v : field) :
  match string_required js key label v with
  | inr s => filled v ∧ s ≠ "" ∧ (forall t, v = FText t -> s = t)
  | inl err =>
      ¬ filled v
      ∧ err = (match v with
               | FArr _ | FObj _ _ => type_error js key label v
               | _ => required_error key label
               end)
  end.
Proof.
  destruct v as [| |[|a s]|[]|n|items|props plain]; cbn;
    repeat split; try discriminate; try congruence; auto.
Qed.

Lemma string_required_inr (js : Js) (key label : string) (v : field) :
  (exists s, string_required js key label v = inr s) <-> filled v.
Proof.
  pose proof (string_required_cases js key label v) as H.
  destruct (string_required js key label v) as [err|s].
  - split; [intros [s Hs]; discriminate | intros Hv; destruct H; contradiction].
  - split; [intros _; apply H | eauto].
Qed.

Lemma string_required_text (js : Js) (key label s : string) :
  s ≠ "" -> string_required js key label (FText s) = inr s.
Proof. destruct s; [congruence|reflexivity]. Qed.


Lemma editRecipe_validate_accepts (js : Js) (input : EditInput) :
  (exists v, editRecipe_validate js input = inr v)
  <-> filled (ei_id input) ∧ filled (ei_title input) ∧ filled (ei_recipe input).
Proof.
  unfold editRecipe_validate, mixed_nullable.
  rewrite <- (string_required_inr js "id" "id" (ei_id input)),
    <- (string_required_inr js "title" "title" (ei_title input)),
    <- (string_required_inr js "recipe" "recipe" (ei_recipe input)).
  destruct (string_required js "id" "id" (ei_id input)),
    (string_required js "title" "title" (ei_title input)),
    (string_required js "recipe" "recipe" (ei_recipe input)); cbn;
    (split; [intros [v Hv]; try discriminate Hv; repeat split; eauto
            |intros ([? Hi] & [? Ht] & [? Hr]); try discriminate; eauto]).
Qed.

(** What the schema resolves with: the casts; of a string, the string. *)
Lemma editRecipe_validate_inr (js : Js) (input : EditInput) (v : EditRecipe) :
  editRecipe_validate js input = inr v ->
  string_required js "id" "id" (ei_id input) = inr (er_id v)
  ∧ string_required js "title" "title" (ei_title input) = inr (er_title v)
  ∧ string_required js "recipe" "recipe" (ei_recipe input) = inr (er_recipe v).
Proof.
  unfold editRecipe_validate, mixed_nullable.
  destruct (string_required js "id" "id" (ei_id input)),
    (string_required js "title" "title" (ei_title input)),
    (string_required js "recipe" "recipe" (ei_recipe input)); cbn;
    try discriminate.
  intros [= <-]. auto.
Qed.

Lemma string_required_inr_text (js : Js) (key label s t : string) :
  string_required js key label (FText t) = inr s -> s = t.
Proof.
  intros H. pose proof (string_required_cases js key label (FText t)) as Hc.
  rewrite H in Hc. apply Hc. reflexivity.
Qed.

Lemma text_error_spec (js : Js) (k : string) (v : field) :
  text_error js k v
  = match string_required js k k v with
    | inl err => [(k, first_message err)]
    | inr _ => []
    end.
Proof. destruct v as [| |[|a s]|[]|n|items|props plain]; reflexivity. Qed.

Arguments storeRecipe_validate : simpl never.
Arguments editRecipe_validate : simpl never.

(** Simplifies, rewrites with the equations at hand and splits on the
    flags of the environment, as long as something moves. *)
Ltac crunch :=
  repeat (cbn;
    match goal with
    | H : ?x = _ |- context [?x] => rewrite H
    | |- context [if ?b then _ else _] => is_var b; destruct b
    end); cbn.

(** Unfolds one run of a handler down to its case analysis. *)
Ltac run :=
  unfold serve, add_recipe, delete_recipe, update_recipe, deleteFile,
    sendErrorResponse, console_error, yup_validate, upload_single, db_get,
    db_get_rowid,
    db_insert, db_update, db_delete, fs_unlink,
    result, world, events, mbind, M_bind, mret, M_ret in *;
  cbn [fst snd] in *.

(** Rewrites with the equations at hand and splits on whatever else a
    run is stuck on, innermost first. *)
Ltac explore :=
  repeat (cbn in *;
    first
      [ match goal with
        | H : ?x = _ |- context [?x] => rewrite H
        end
      | match goal with
        | |- context [match ?x with _ => _ end] =>
            lazymatch x with
            | context [match _ with _ => _ end] => fail
            | _ => destruct x eqn:?
            end
        end ]); cbn in *.



Lemma errors_imgType_get (chk : string -> bool) (title recipe : string)
    (imgType : option string) (edit : option bool) :
  obj_get "imgType" (errors chk (title, recipe, imgType) edit) =
    if bool_decide (trim (default "" imgType) = "")
    then (if default false edit then None else Some (VStr "Image is required."))
    else if chk (default "" imgType) then None else Some invalid_image_type.
Proof.
  unfold errors. rewrite !not_gt0_length, gt0_length.
  destruct (default false edit);
    destruct (bool_decide (trim title = ""));
    destruct (bool_decide (trim recipe = ""));
    destruct (bool_decide (trim (default "" imgType) = ""));
    destruct (chk (default "" imgType)); reflexivity.
Qed.

Lemma checkImageType_spec (s : string) :
  checkImageType s = true <-> s ∈ ["jpg"; "jpeg"; "png"].
Proof. apply bool_decide_eq_true. Qed.

(** C4 (as amended). Let [checkImageType] accept [jpg], [jpeg] and [png]
    and nothing else. For an image type that is not blank, that is not
    empty once the white space around it is trimmed, and that is not
    [jpg], [jpeg] or [png], the result of [errors] maps [imgType] to the
    invalid-image-type message; for [jpg], [jpeg] and [png] the result has
    no [imgType] entry. *)
Theorem errors_imgType_rule (chk : string -> bool)
    (title recipe imgType : string) (edit : option bool) :
  (forall s, chk s = true <-> s ∈ ["jpg"; "jpeg"; "png"]) ->
  (imgType ∈ ["jpg"; "jpeg"; "png"] ->
   obj_get "imgType" (errors chk (title, recipe, Some imgType) edit) = None)
  ∧ (trim imgType ≠ "" -> imgType ∉ ["jpg"; "jpeg"; "png"] ->
     obj_get "imgType" (errors chk (title, recipe, Some imgType) edit)
     = Some invalid_image_type).
Proof.
  intros Hchk. rewrite errors_imgType_get. cbn. split.
  - intros Hin. rewrite (proj2 (Hchk imgType) Hin).
    rewrite bool_decide_eq_false_2; [reflexivity|].
    repeat (apply elem_of_cons in Hin as [->|Hin]); try discriminate.
    inversion Hin.
  - intros Hblank Hout. rewrite (bool_decide_eq_false_2 _ Hblank).
    destruct (chk imgType) eqn:Hc; [|reflexivity].
    destruct Hout. apply Hchk, Hc.
Qed.

Lemma errors_imgType_rule_witness :
  obj_get "imgType" (errors checkImageType ("Soup", "Boil water", Some "png") None)
    = None
  ∧ obj_get "imgType" (errors checkImageType ("Soup", "Boil water", Some "gif") None)
    = Some invalid_image_type.
Proof.
  split.
  - apply (proj1 (errors_imgType_rule checkImageType "Soup" "Boil water" "png" None
                    checkImageType_spec)).
    do 2 right; left.
  - apply (proj2 (errors_imgType_rule checkImageType "Soup" "Boil water" "gif" None
                    checkImageType_spec)).
    + discriminate.
    + intros Hin. repeat (apply elem_of_cons in Hin as [Heq|Hin]); try discriminate.
      inversion Hin.
Defined.

(** C4 (as stated) fails: a single space is a non-empty image type other
    than [jpg], [jpeg] and [png], and [errors] reports no invalid image
    type for it: on an edit the result has no [imgType] entry at all, on
    a create it says that the image is required. *)
Lemma errors_blank_imgType_not_invalid :
(" " ≠ "") ∧ (" " ∉ ["jpg"; "jpeg"; "png"])
  ∧ obj_get "imgType" (errors checkImageType ("Soup", "Boil water", Some " ") (Some true))
    = None
  ∧ obj_get "imgType" (errors checkImageType ("Soup", "Boil water", Some " ") None)
    = Some (VStr "Image is required.").
Proof.
  split; [discriminate|]. split; [|split; reflexivity].
  intros Hin. repeat (apply elem_of_cons in Hin as [Heq|Hin]); try discriminate.
  inversion Hin.
Qed.

(** ** Creating a recipe *)




(** ** Deleting a file *)

(** C6. When [fs.unlink] reports ENOENT, [deleteFile] resolves; when it
    reports any other error, [deleteFile] rejects with that error. A file
    that is not there is such an ENOENT: deleting it resolves and changes
    nothing. *)
Theorem deleteFile_enoent_resolves (filePath : string) (e : Env) (w : World) :
  (forall err, result (fs_unlink filePath e w) = Some err ->
     if decide (code err = "ENOENT")
     then result (deleteFile filePath e w) = inr tt
     else result (deleteFile filePath e w) = inl err)
  ∧ (unlink_fails e = None -> filePath ∉ files w ->
     result (deleteFile filePath e w) = inr tt
     ∧ world (deleteFile filePath e w) = w).
Proof.
  run. split.
  - intros err. destruct (unlink_fails e) as [c|].
    + cbn. intros [= <-]. cbn.
      destruct (decide (c = "ENOENT")) as [->|Hc]; [reflexivity|].
      apply String.eqb_neq in Hc. rewrite Hc. reflexivity.
    + destruct (decide (filePath ∈ files w)); cbn; [discriminate|].
      intros [= <-]. reflexivity.
  - intros -> Hout. rewrite decide_False by exact Hout. cbn. auto.
Qed.

Lemma deleteFile_enoent_resolves_witness :
  result (deleteFile "public/assets/images/thumbnail/gone.jpg" calm empty_world)
    = inr tt
  ∧ world (deleteFile "public/assets/images/thumbnail/gone.jpg" calm empty_world)
    = empty_world
  ∧ result (deleteFile "public/assets/images/thumbnail/gone.jpg"
              (set_unlink_fails (Some "EACCES") calm) empty_world)
    = inl {| code := "EACCES" |}.
Proof.
  split; [|split].
  - apply (proj2 (deleteFile_enoent_resolves _ calm empty_world)); [reflexivity|].
    apply not_elem_of_empty.
  - apply (proj2 (deleteFile_enoent_resolves _ calm empty_world)); [reflexivity|].
    apply not_elem_of_empty.
  - exact (proj1 (deleteFile_enoent_resolves
                    "public/assets/images/thumbnail/gone.jpg"
                    (set_unlink_fails (Some "EACCES") calm) empty_world)
                 {| code := "EACCES" |} eq_refl).
Defined.

(** ** Deleting a recipe *)

(** The four ids of C10 are falsy. *)
Lemma falsy_ids :
  truthy (get_prop "id" (VObj [])) = false
  ∧ truthy (get_prop "id" (VObj [("id", VNull)])) = false
  ∧ truthy (get_prop "id" (VObj [("id", VStr "")])) = false
  ∧ truthy (get_prop "id" (VObj [("id", VNum (Finite 0))])) = false.
Proof. repeat split. Qed.

(** C10. A delete whose body carries a falsy [id] is answered 400 with
    [ID is required]; no statement is sent to the database, no file is
    unlinked, and the world is as before. *)
Theorem delete_recipe_requires_id (req_body : value) (e : Env) (w : World) :
  truthy (get_prop "id" req_body) = false ->
  let o := serve (DeleteRecipe req_body) e w in
  result o = {| status := 400; body := VObj [("error", VStr "ID is required")] |}
  ∧ statements (events o) = []
  ∧ unlinked (events o) = []
  ∧ world o = w.
Proof. intros Hid o. subst o. run. rewrite Hid. cbn. auto. Qed.

Lemma delete_recipe_requires_id_witness :
  result (serve (DeleteRecipe (VObj [("id", VNum (Finite 0))])) calm soup_world)
  = {| status := 400; body := VObj [("error", VStr "ID is required")] |}
  ∧ statements (events (serve (DeleteRecipe (VObj [("id", VNum (Finite 0))])) calm soup_world)) = []
  ∧ unlinked (events (serve (DeleteRecipe (VObj [("id", VNum (Finite 0))])) calm soup_world)) = []
  ∧ world (serve (DeleteRecipe (VObj [("id", VNum (Finite 0))])) calm soup_world)
    = soup_world.
Proof.
  exact (delete_recipe_requires_id (VObj [("id", VNum (Finite 0))]) calm soup_world
           eq_refl).
Defined.

(** C7. A delete whose [id] is present and for which the SELECT calls
    back with no row is answered 404 with [Recipe not found]; no file is
    unlinked, and the world is as before. *)
Theorem delete_recipe_unknown_id (req_body : value) (e : Env) (w : World) :
  truthy (get_prop "id" req_body) = true ->
  result (db_get "SELECT thumbnail FROM recipes WHERE id = ?" select_fails
            (get_prop "id" req_body) e w) = inr None ->
  let o := serve (DeleteRecipe req_body) e w in
  result o = {| status := 404; body := VObj [("error", VStr "Recipe not found")] |}
  ∧ unlinked (events o) = []
  ∧ world o = w.
Proof.
  intros Hid Hrow o. subst o. run. rewrite Hid. cbn [negb].
  destruct (select_fails e); [discriminate|]. cbn in Hrow.
  injection Hrow as Hrow. cbn. rewrite Hrow. cbn. auto.
Qed.

Lemma delete_recipe_unknown_id_witness :
  result (serve (DeleteRecipe (VObj [("id", VNum (Finite 7))])) calm soup_world)
  = {| status := 404; body := VObj [("error", VStr "Recipe not found")] |}
  ∧ unlinked (events (serve (DeleteRecipe (VObj [("id", VNum (Finite 7))])) calm soup_world)) = []
  ∧ world (serve (DeleteRecipe (VObj [("id", VNum (Finite 7))])) calm soup_world)
    = soup_world.
Proof.
  exact (delete_recipe_unknown_id (VObj [("id", VNum (Finite 7))]) calm soup_world
           eq_refl eq_refl).
Defined.

(** When the SELECT itself fails the answer is 500, and still no file is
    unlinked. *)
Lemma delete_recipe_select_failure (req_body : value) (e : Env) (w : World) :
  truthy (get_prop "id" req_body) = true ->
  select_fails e = true ->
  status (result (serve (DeleteRecipe req_body) e w)) = 500
  ∧ unlinked (events (serve (DeleteRecipe req_body) e w)) = []
  ∧ world (serve (DeleteRecipe req_body) e w) = w.
Proof. intros Hid Hsel. run. rewrite Hid. cbn. rewrite Hsel. cbn. auto. Qed.

(** ** Editing a recipe *)

(** C8. An edit without an upload leaves the [thumbnail] of every row as
    it was, whatever the outcome of the request; it unlinks no file and
    leaves the files as they were. *)
Theorem update_without_file_keeps_thumbnail (req : Multipart) (e : Env) (w : World) :
  file req = None ->
  let o := serve (UpdateRecipe req) e w in
  (forall i, r_thumbnail <$> table (world o) !! i = r_thumbnail <$> table w !! i)
  ∧ unlinked (events o) = []
  ∧ files (world o) = files w.
Proof.
  intros Hfile o. subst o. run. rewrite Hfile.
  destruct (editRecipe_validate _ _) as [err|v]; [cbn; auto|].
  destruct (select_fails e); [cbn; auto|].
  destruct (sql_rowid e (field_value (body_id req))) as [i|] eqn:Hi; [|cbn; auto].
  cbn [mbind option_bind].
  destruct (table w !! i) as [row|] eqn:Hrow; [|cbn; auto].
  destruct (write_fails e); [cbn; auto|].
  rewrite Hi.
  destruct (reselect_fails e); cbn; (split; [|auto]);
    intros j; rewrite lookup_alter; destruct (decide (i = j)) as [<-|];
    try reflexivity; rewrite Hrow; reflexivity.
Qed.

Lemma update_without_file_keeps_thumbnail_witness :
  (forall i, r_thumbnail <$> table (world (serve (UpdateRecipe soup_edit) calm soup_world)) !! i
             = r_thumbnail <$> table soup_world !! i)
  ∧ unlinked (events (serve (UpdateRecipe soup_edit) calm soup_world)) = []
  ∧ files (world (serve (UpdateRecipe soup_edit) calm soup_world)) = files soup_world.
Proof.
  exact (update_without_file_keeps_thumbnail soup_edit calm soup_world eq_refl).
Defined.

(** Whether the cleanup fails makes no difference to the answer nor to
    the table. *)
Lemma update_recipe_unlink_irrelevant (req : Multipart) (e : Env) (w : World)
    (c : string) :
  c ≠ "ENOENT" ->
  result (serve (UpdateRecipe req) (set_unlink_fails (Some c) e) w)
  = result (serve (UpdateRecipe req) (set_unlink_fails None e) w)
  ∧ table (world (serve (UpdateRecipe req) (set_unlink_fails (Some c) e) w))
    = table (world (serve (UpdateRecipe req) (set_unlink_fails None e) w)).
Proof.
  intros Hc%String.eqb_neq. destruct e as [rowid sel wr re un nw j nt].
  run. unfold set_unlink_fails. cbn [js].
  destruct (editRecipe_validate _ _) as [err|v]; [destruct (file req); cbn; auto|].
  destruct (rowid (field_value (body_id req))) as [i|] eqn:Hi;
    [destruct (table w !! i) as [row|] eqn:Hrow|];
    destruct (file req) as [f|]; crunch; auto;
    destruct (decide (_ ∈ _)); crunch; auto.
Qed.

(** C5. In an edit that uploads a new thumbnail and whose deletion of the
    old file fails, the failure is logged and nothing more: the answer and
    the table are those of the same edit with a deletion that succeeds;
    and when the request is valid, its row exists and no statement fails,
    the answer is 200 with the updated row, whose [thumbnail] is the new
    generated file name. *)
Theorem update_survives_cleanup_failure (req : Multipart) (f : File)
    (e : Env) (w : World) (c : string) :
  file req = Some f ->
  unlink_fails e = Some c ->
  c ≠ "ENOENT" ->
  let o := serve (UpdateRecipe req) e w in
  (result o = result (serve (UpdateRecipe req) (set_unlink_fails None e) w)
   ∧ table (world o)
     = table (world (serve (UpdateRecipe req) (set_unlink_fails None e) w)))
  ∧ (forall v i row,
       editRecipe_validate (js e)
         {| ei_id := body_id req; ei_title := body_title req;
            ei_recipe := body_recipe req |} = inr v ->
       select_fails e = false -> write_fails e = false -> reselect_fails e = false ->
       sql_rowid e (field_value (body_id req)) = Some i ->
       table w !! i = Some row ->
       let row' := {| r_id := r_id row; r_title := bound_text e (body_title req);
                      r_recipe := bound_text e (body_recipe req);
                      r_thumbnail := filename f;
                      r_timestamp := r_timestamp row |} in
       result o = {| status := 200;
                     body := VObj [("message", VStr "Recipe updated successfully");
                                   ("recipe", row_json (Some row'))] |}
       ∧ table (world o) !! i = Some row'
       ∧ logged (events o) = [VStr "Error deleting old thumbnail:"]
       ∧ unlinked (events o) = [thumbnail_path (r_thumbnail row)]
       ∧ (forall t r, body_title req = FText t -> body_recipe req = FText r ->
            r_title row' = t ∧ r_recipe row' = r ∧ er_title v = t ∧ er_recipe v = r)).
Proof.
  intros Hfile Hunlink Hc o. subst o. split.
  - replace e with (set_unlink_fails (Some c) e) at 1 3
      by (destruct e; cbn in *; subst; reflexivity).
    apply update_recipe_unlink_irrelevant, Hc.
  - intros v i row Hv Hsel Hwr Hre Hi Hrow row'. subst row'.
    apply String.eqb_neq in Hc. destruct e as [rowid sel wr re un nw j nt].
    cbn in Hunlink, Hsel, Hwr, Hre, Hi, Hv. subst sel wr re un.
    split; [|split; [|split; [|split]]].
    5: { intros t r Ht Hr. rewrite Ht, Hr in *. cbn.
         apply editRecipe_validate_inr in Hv as (_ & Hvt & Hvr).
         cbn [ei_title ei_recipe] in Hvt, Hvr.
         apply string_required_inr_text in Hvt, Hvr. auto. }
    all: run; rewrite Hfile; cbn [js]; rewrite Hv; cbn; rewrite Hi; cbn;
      rewrite Hrow; cbn; rewrite Hc; cbn; rewrite ?Hi; cbn;
      rewrite ?lookup_alter, ?decide_True by reflexivity;
      rewrite ?Hrow; reflexivity.
Qed.

Lemma update_survives_cleanup_failure_witness :
  let e := set_unlink_fails (Some "EACCES") calm in
  let o := serve (UpdateRecipe soup_retake) e soup_world in
  status (result o) = 200
  ∧ r_thumbnail <$> table (world o) !! 1 = Some "1704070800000-42.png"
  ∧ logged (events o) = [VStr "Error deleting old thumbnail:"].
Proof.
  pose proof (update_survives_cleanup_failure soup_retake new_upload
                (set_unlink_fails (Some "EACCES") calm) soup_world "EACCES"
                eq_refl eq_refl ltac:(discriminate)) as [_ H].
  specialize (H {| er_id := "1"; er_title := "Soup"; er_recipe := "Simmer" |} 1
                {| r_id := 1; r_title := "Soup"; r_recipe := "Boil water";
                   r_thumbnail := "1704067200000-123456789.jpg";
                   r_timestamp := "2024-01-01 00:00:00" |}
                eq_refl eq_refl eq_refl eq_refl eq_refl eq_refl).
  cbv zeta in H. destruct H as (Hres & Htab & Hlog & _).
  cbv zeta. rewrite Hres, Htab, Hlog. repeat split.
Defined.

(** ** Thumbnails and files *)

Lemma thumbnail_path_inj (a b : string) :
  thumbnail_path a = thumbnail_path b -> a = b.
Proof.
  unfold thumbnail_path, path_join. intros H.
  apply (inj (String.app _)) in H. apply (inj (String.app _)) in H. exact H.
Qed.

Lemma upload_path (f : File) :
  path_join (destination "thumbnail") (filename f) = thumbnail_path (filename f).
Proof. reflexivity. Qed.

Lemma delete_path (name : string) :
  path_join (path_join "public" "assets/images/thumbnail") name = thumbnail_path name.
Proof. reflexivity. Qed.

Section Consistency.

Variable w : World.
Hypothesis Hw : consistent w.

Lemma consistent_same (s : Z) :
  consistent {| table := table w; seq := s; files := files w |}.
Proof. exact Hw. Qed.

(** Writing a file keeps the invariant. *)
Lemma consistent_write_file (p : string) (s : Z) :
  consistent {| table := table w; seq := s; files := {[p]} ∪ files w |}.
Proof.
  destruct Hw as [Hdisk Hdist]. split.
  - intros i r Hr. cbn in *. apply elem_of_union_r. eauto.
  - exact Hdist.
Qed.

(** Inserting or replacing a row that names a file just written. *)
Lemma consistent_insert (i : Z) (row : Recipe) (s : Z) :
  thumbnail_path (r_thumbnail row) ∉ files w ->
  consistent {| table := <[i := row]> (table w); seq := s;
                files := {[thumbnail_path (r_thumbnail row)]} ∪ files w |}.
Proof.
  intros Hnew. destruct Hw as [Hdisk Hdist]. split.
  - intros j r. cbn. rewrite lookup_insert.
    destruct (decide (i = j)) as [<-|]; [intros [= <-]; set_solver|].
    intros Hr. apply elem_of_union_r. eauto.
  - intros j k r r'. cbn. rewrite !lookup_insert.
    destruct (decide (i = j)) as [<-|], (decide (i = k)) as [<-|];
      try congruence.
    + intros [= <-] Hr' Heq. destruct Hnew. rewrite Heq. eauto.
    + intros Hr [= <-] Heq. destruct Hnew. rewrite <- Heq. eauto.
    + eauto.
Qed.

(** Dropping a row, and any files but those of the other rows. *)
Lemma consistent_delete (i : Z) (row : Recipe) (fs : gset string) (s : Z) :
  table w !! i = Some row ->
  files w ∖ {[thumbnail_path (r_thumbnail row)]} ⊆ fs ->
  consistent {| table := delete i (table w); seq := s; files := fs |}.
Proof.
  intros Hrow Hfs. destruct Hw as [Hdisk Hdist]. split.
  - intros j r. cbn. rewrite lookup_delete.
    destruct (decide (i = j)) as [|Hne]; [discriminate|]. intros Hr.
    apply Hfs, elem_of_difference. split; [eauto|].
    intros Heq%elem_of_singleton%thumbnail_path_inj.
    apply Hne. symmetry. eauto.
  - intros j k r r'. cbn. rewrite !lookup_delete.
    destruct (decide (i = j)), (decide (i = k)); try discriminate. eauto.
Qed.

(** Rewriting the text of a row. *)
Lemma consistent_retitle (i : Z) (row : Recipe) (t r : string) (s : Z) :
  table w !! i = Some row ->
  consistent
    {| table :=
         alter (fun row0 => {| r_id := r_id row0; r_title := t; r_recipe := r;
                               r_thumbnail := r_thumbnail row;
                               r_timestamp := r_timestamp row0 |}) i (table w);
       seq := s; files := files w |}.
Proof.
  intros Hrow. destruct Hw as [Hdisk Hdist]. split.
  - intros j x. cbn. rewrite lookup_alter.
    destruct (decide (i = j)) as [<-|]; [|eauto].
    rewrite Hrow. intros [= <-]. cbn. eauto.
  - intros j k x y. cbn. rewrite !lookup_alter.
    destruct (decide (i = j)) as [<-|], (decide (i = k)) as [<-|];
      rewrite ?Hrow; try congruence.
    + intros [= <-] Hy. cbn. eauto.
    + intros Hx [= <-]. cbn. eauto.
    + eauto.
Qed.

(** Pointing a row at a file just written, with or without the file it
    named before. *)
Lemma consistent_retarget (i : Z) (row : Recipe) (t r name : string)
    (fs : gset string) (s : Z) :
  table w !! i = Some row ->
  thumbnail_path name ∉ files w ->
  ({[thumbnail_path name]} ∪ files w) ∖ {[thumbnail_path (r_thumbnail row)]} ⊆ fs ->
  consistent
    {| table :=
         alter (fun row0 => {| r_id := r_id row0; r_title := t; r_recipe := r;
                               r_thumbnail := name;
                               r_timestamp := r_timestamp row0 |}) i (table w);
       seq := s; files := fs |}.
Proof.
  intros Hrow Hnew Hfs. destruct Hw as [Hdisk Hdist].
  assert (Hold : thumbnail_path name ≠ thumbnail_path (r_thumbnail row)).
  { intros Heq. apply Hnew. rewrite Heq. eauto. }
  split.
  - intros j x. cbn. rewrite lookup_alter.
    destruct (decide (i = j)) as [<-|Hne].
    + rewrite Hrow. intros [= <-]. cbn. apply Hfs. set_solver.
    + intros Hx. apply Hfs, elem_of_difference. split.
      * apply elem_of_union_r. eauto.
      * intros Heq%elem_of_singleton%thumbnail_path_inj.
        apply Hne. symmetry. eauto.
  - intros j k x y. cbn. rewrite !lookup_alter.
    destruct (decide (i = j)) as [<-|], (decide (i = k)) as [<-|];
      rewrite ?Hrow; try congruence.
    + intros [= <-] Hy. cbn. intros ->. destruct Hnew. eauto.
    + intros Hx [= <-]. cbn. intros <-. destruct Hnew. eauto.
    + eauto.
Qed.

End Consistency.

(** One undisturbed request keeps the invariant. *)
Lemma serve_consistent (rq : Request) (e : Env) (w : World) :
  consistent w -> undisturbed rq e w -> consistent (world (serve rq e w)).
Proof.
  intros Hw [Hfresh Hwrite]. destruct e as [rowid sel wr re un nw j nt].
  destruct rq as [req|req_body|req]; cbn in Hfresh, Hwrite.
  - run. unfold storeRecipe_validate, with_files, with_table.
    cbn [si_title si_recipe si_thumbnail js].
    destruct (file req) as [f|].
    + specialize (Hfresh f eq_refl).
      destruct (string_required j "title" "title" (body_title req)) as [?|t];
        destruct (string_required j "recipe" "recipe" (body_recipe req)) as [?|r];
        cbn; try (apply consistent_write_file; exact Hw).
      destruct wr; cbn; [apply consistent_write_file; exact Hw|].
      destruct re; cbn;
        apply (consistent_insert w Hw (seq w + 1)
                 {| r_id := seq w + 1; r_title := t; r_recipe := r;
                    r_thumbnail := filename f; r_timestamp := nw |}), Hfresh.
    + destruct (string_required j "title" "title" (body_title req));
        destruct (string_required j "recipe" "recipe" (body_recipe req));
        cbn; exact Hw.
  - specialize (Hwrite eq_refl). subst wr. run. unfold with_files, with_table.
    destruct (truthy (get_prop "id" req_body)); cbn; [|exact Hw].
    destruct sel; cbn; [exact Hw|].
    destruct (rowid (get_prop "id" req_body)) as [i|] eqn:Hi; cbn; [|exact Hw].
    destruct (table w !! i) as [row|] eqn:Hrow; cbn; [|exact Hw].
    destruct un as [c|]; cbn.
    + destruct (String.eqb c "ENOENT"); cbn; [|exact Hw].
      rewrite Hi. cbn. apply (consistent_delete w Hw i row); [exact Hrow|].
      apply subseteq_difference_l. reflexivity.
    + destruct (decide (_ ∈ _)); cbn; rewrite Hi; cbn;
        (apply (consistent_delete w Hw i row); [exact Hrow|]).
      * reflexivity.
      * apply subseteq_difference_l. reflexivity.
  - run. unfold with_files, with_table. cbn [js].
    destruct (editRecipe_validate _ _) as [err|v].
    { destruct (file req); cbn; [apply consistent_write_file|]; exact Hw. }
    destruct (file req) as [f|]; cbn.
    + specialize (Hfresh f eq_refl). specialize (Hwrite eq_refl). subst wr.
      destruct sel; cbn; [apply consistent_write_file; exact Hw|].
      destruct (rowid (field_value (body_id req))) as [i|] eqn:Hi; cbn;
        [|apply consistent_write_file; exact Hw].
      destruct (table w !! i) as [row|] eqn:Hrow; cbn;
        [|apply consistent_write_file; exact Hw].
      destruct un as [c|]; cbn.
      * destruct (String.eqb c "ENOENT"); cbn; rewrite Hi; destruct re; cbn;
          (apply (consistent_retarget w Hw i row); [exact Hrow|exact Hfresh|]);
          apply subseteq_difference_l; reflexivity.
      * destruct (decide (_ ∈ _)); cbn; rewrite Hi; destruct re; cbn;
          (apply (consistent_retarget w Hw i row); [exact Hrow|exact Hfresh|]);
          try reflexivity; apply subseteq_difference_l; reflexivity.
    + destruct sel; cbn; [exact Hw|].
      destruct (rowid (field_value (body_id req))) as [i|] eqn:Hi; cbn; [|exact Hw].
      destruct (table w !! i) as [row|] eqn:Hrow; cbn; [|exact Hw].
      destruct wr; cbn; [exact Hw|].
      rewrite Hi. destruct re; cbn; apply (consistent_retitle w Hw i row), Hrow.
Qed.

(** C2 (as amended). In every state reached from an empty table through
    requests that are handled one at a time, whose uploads get file names
    new to the directory, and in which no DELETE or UPDATE statement fails
    once the request unlinks a thumbnail, every readable row names a file
    that is in the thumbnail directory. *)
Theorem thumbnails_on_disk_undisturbed (w : World) :
  reachable_undisturbed w -> thumbnails_on_disk w.
Proof.
  intros Hreach. cut (consistent w); [intros [H _]; exact H|].
  induction Hreach as [fs|e rq w Hreach IH Hcalm].
  - split.
    + intros i r Hr. cbn in Hr. rewrite lookup_empty in Hr. discriminate.
    + intros i j r s Hr. cbn in Hr. rewrite lookup_empty in Hr. discriminate.
  - apply serve_consistent; assumption.
Qed.

Lemma thumbnails_on_disk_undisturbed_witness :
  thumbnails_on_disk (world (serve (UpdateRecipe soup_retake) calm soup_world)).
Proof.
  apply thumbnails_on_disk_undisturbed.
  apply undisturbed_serve; [apply undisturbed_serve|].
  - apply (undisturbed_start ∅).
  - split; [|discriminate].
    intros f [= <-]. apply not_elem_of_empty.
  - split; [|reflexivity].
    intros f [= <-]. intros Hin.
    apply elem_of_union in Hin as [Hin%elem_of_singleton|Hin%elem_of_empty];
      [discriminate|contradiction].
Defined.

(** C2 (as stated) fails: after a delete whose DELETE statement fails,
    answered 500, the row is still readable and the file it names is
    gone. The state is reached without any edit. *)
Lemma delete_failure_orphans_row :
  reachable orphaned_world
  ∧ status (result (serve (DeleteRecipe delete_soup) (set_write_fails true calm)
                      soup_world)) = 500
  ∧ (exists r, table orphaned_world !! 1 = Some r
               ∧ thumbnail_path (r_thumbnail r) ∉ files orphaned_world).
Proof.
  split; [|split].
  - apply reachable_serve, reachable_serve, (reachable_start ∅).
  - reflexivity.
  - eexists. split; [reflexivity|]. cbn.
    intros [_ Hout]%elem_of_difference. apply Hout, elem_of_singleton.
    reflexivity.
Qed.

(** The other way to the same state: an edit with a new file whose UPDATE
    fails, answered 500, has unlinked the file the row still names. *)
Example update_failure_orphans_row :
  let o := serve (UpdateRecipe soup_retake) (set_write_fails true calm) soup_world in
  status (result o) = 500
  ∧ r_thumbnail <$> table (world o) !! 1 = Some "1704067200000-123456789.jpg"
  ∧ elements (files (world o)) = [thumbnail_path "1704070800000-42.png"].
Proof. repeat split; reflexivity. Qed.

(** * Further properties *)

Set Warnings "-clear-no-such-hyp".

(** ** Validation rules *)

Lemma obj_get_is_Some (k : string) (o : object) :
  is_Some (obj_get k o) <-> k ∈ o.*1.
Proof.
  induction o as [|[k0 v0] o IH]; cbn.
  - split; [intros [x Hx]; discriminate | intros H; inversion H].
  - destruct (decide (k0 = k)) as [->|Hne].
    + split; [intros _; left | eauto].
    + rewrite IH. split; [intros H; right; exact H|].
      intros [?|?]%elem_of_cons; congruence.
Qed.

Lemma last_violation_is_Some (k : string) (l : list InnerError) :
  is_Some (last_violation k l) <-> exists e, e ∈ l ∧ path e = Some k.
Proof.
  induction l as [|e l IH]; cbn.
  - split; [intros [x Hx]; discriminate | intros (e & He & _); inversion He].
  - destruct (last_violation k l) as [e'|].
    + split; [|eauto]. intros _.
      destruct (proj1 IH (ex_intro _ e' eq_refl)) as (x & Hx & Hp).
      exists x. split; [right; exact Hx | exact Hp].
    + destruct (decide (path e = Some k)) as [Hp|Hp].
      * split; [|eauto]. intros _. exists e. split; [left | exact Hp].
      * split; [intros [x Hx]; discriminate|].
        intros (x & [->|Hx]%elem_of_cons & Hxp); [contradiction|].
        destruct (proj2 IH (ex_intro _ x (conj Hx Hxp))) as [y Hy].
        discriminate.
Qed.

Lemma fold_record_error_proto (l : list InnerError) (acc : object) :
  "__proto__" ∈ (fold_left record_error l acc).*1 -> "__proto__" ∈ acc.*1.
Proof.
  revert acc. induction l as [|e l IH]; intros acc; cbn; [auto|].
  intros H%IH. unfold record_error, js_assign in H.
  destruct (path e) as [p|]; [|exact H].
  destruct (decide (p = "__proto__")) as [->|Hp]; [exact H|].
  rewrite obj_set_keys in H. destruct (decide (p ∈ acc.*1)); [exact H|].
  apply elem_of_app in H as [H|H%list_elem_of_singleton]; congruence.
Qed.

(** X1. The keys of the mapping are the paths that [inner] names, but for
    [__proto__]: a field has an entry exactly when some violation names
    it, and an entry without path adds none. *)
Theorem transform_keys_are_paths (errors : ValidationError) (k : string) :
  k ∈ (transformYupErrorsIntoObject errors).*1
  <-> k ≠ "__proto__" ∧ exists e, e ∈ inner errors ∧ path e = Some k.
Proof.
  unfold transformYupErrorsIntoObject.
  destruct (decide (k = "__proto__")) as [->|Hk].
  - split; [|intros [H _]; congruence].
    intros H%fold_record_error_proto. inversion H.
  - rewrite <- obj_get_is_Some, fold_record_error_get by exact Hk. cbn.
    rewrite <- last_violation_is_Some.
    destruct (last_violation k (inner errors)) as [e|].
    + split; [intros _; split; [exact Hk|eauto] | eauto].
    + split; [intros [x Hx]; discriminate | intros [_ [x Hx]]; discriminate].
Qed.

Lemma storeRecipe_validate_inr (js : Js) (input : StoreInput) (v : StoreRecipe) :
  storeRecipe_validate js input = inr v
  <-> string_required js "title" "title" (si_title input) = inr (sr_title v)
      ∧ string_required js "recipe" "recipe" (si_recipe input) = inr (sr_recipe v)
      ∧ si_thumbnail input = Some (sr_thumbnail v).
Proof.
  unfold storeRecipe_validate. destruct v as [t r th].
  destruct (string_required js "title" "title" (si_title input)),
    (string_required js "recipe" "recipe" (si_recipe input)),
    (si_thumbnail input); cbn;
    (split; [intros H; try discriminate H; injection H as <- <- <-; auto
            |intros (Ht & Hr & Hth); try discriminate; congruence]).
Qed.

Lemma string_required_cast (js : Js) (key label : string) (v : field) (s : string) :
  string_required js key label v = inr s <-> filled v ∧ s = cast_text js v.
Proof.
  destruct v as [| |[|a t]|[]|n|items|props plain]; cbn;
    (split; [intros H; try discriminate H; injection H as <-; auto
            |intros [H ->]; try contradiction; try congruence; reflexivity]).
Qed.

Lemma cast_text_nonempty (js : Js) (v : field) : filled v -> cast_text js v ≠ "".
Proof.
  destruct v as [| |[|a t]|[]|n|items|props plain]; cbn;
    try contradiction; try congruence; discriminate.
Qed.

(** X2. The create schema accepts exactly the inputs whose [title] and
    [recipe] are each a non-empty string, a number or a boolean and whose
    [thumbnail] is a file name, and it resolves with the file name and
    with the casts of the two. A string is cast to itself: of text the
    schema resolves with these very strings, and nothing is trimmed or
    otherwise normalised. *)
Theorem storeRecipe_accepts_unchanged (js : Js) (input : StoreInput)
    (v : StoreRecipe) :
  (storeRecipe_validate js input = inr v
   <-> filled (si_title input) ∧ filled (si_recipe input)
       ∧ sr_title v = cast_text js (si_title input)
       ∧ sr_recipe v = cast_text js (si_recipe input)
       ∧ si_thumbnail input = Some (sr_thumbnail v))
  ∧ (forall title recipe,
       si_title input = FText title -> si_recipe input = FText recipe ->
       storeRecipe_validate js input = inr v
       <-> input = {| si_title := FText (sr_title v);
                      si_recipe := FText (sr_recipe v);
                      si_thumbnail := Some (sr_thumbnail v) |}
           ∧ sr_title v ≠ "" ∧ sr_recipe v ≠ "").
Proof.
  assert (Hiff : storeRecipe_validate js input = inr v
                 <-> filled (si_title input) ∧ filled (si_recipe input)
                     ∧ sr_title v = cast_text js (si_title input)
                     ∧ sr_recipe v = cast_text js (si_recipe input)
                     ∧ si_thumbnail input = Some (sr_thumbnail v)).
  { rewrite storeRecipe_validate_inr, !string_required_cast. tauto. }
  split; [exact Hiff|].
  intros title recipe Ht Hr. rewrite Hiff. destruct input as [t r th].
  cbn [si_title si_recipe si_thumbnail] in *. subst t r. cbn. split.
  - intros (Hnt & Hnr & -> & -> & ->). auto.
  - intros ([= -> -> ->] & Hnt & Hnr). auto.
Qed.

Lemma trim_nonempty (s : string) : trim s ≠ "" -> s ≠ "".
Proof. intros H ->. apply H. reflexivity. Qed.

(** X3. Which entries [errors] reports: [title], [recipe] and a missing image
    on a create only, [general] on an edit only, an invalid image type in
    both modes; and nothing else. *)
Theorem errors_entries (chk : string -> bool) (title recipe : string)
    (imgType : option string) (edit : option bool) (k : string) :
  let e := default false edit in
  let img := default "" imgType in
  k ∈ (errors chk (title, recipe, imgType) edit).*1
  <-> (k = "title" ∧ e = false ∧ trim title = "")
      ∨ (k = "recipe" ∧ e = false ∧ trim recipe = "")
      ∨ (k = "imgType"
         ∧ ((e = false ∧ trim img = "") ∨ (trim img ≠ "" ∧ chk img = false)))
      ∨ (k = "general" ∧ e = true ∧ trim title = "" ∧ trim recipe = "").
Proof.
  intros e img. subst e img. unfold errors.
  rewrite !not_gt0_length, gt0_length.
  generalize (trim title) (trim recipe) (trim (default "" imgType))
    (chk (default "" imgType)).
  intros t r i c.
  destruct (default false edit);
    destruct (bool_decide_reflect (t = "")) as [Ht|Ht];
    destruct (bool_decide_reflect (r = "")) as [Hr|Hr];
    destruct (bool_decide_reflect (i = "")) as [Hi|Hi];
    destruct c; cbn;
    match goal with
    | |- _ ∈ ?l <-> _ => let keys := eval vm_compute in l in change l with keys
    end;
    rewrite ?elem_of_cons, ?elem_of_nil; naive_solver.
Qed.

(** X4. When the form passes: [errors] returns the empty mapping exactly when,
    on a create, title, recipe and image type are not blank and the image
    type is an accepted one; on an edit, title or recipe is not blank and
    the image type is blank or an accepted one. *)
Theorem errors_empty_iff (chk : string -> bool) (title recipe : string)
    (imgType : option string) (edit : option bool) :
  let img := default "" imgType in
  errors chk (title, recipe, imgType) edit = []
  <-> (if default false edit
       then trim title ≠ "" ∨ trim recipe ≠ ""
       else trim title ≠ "" ∧ trim recipe ≠ "" ∧ trim img ≠ "")
      ∧ (trim img = "" ∨ chk img = true).
Proof.
  intros img. subst img. unfold errors.
  rewrite !not_gt0_length, gt0_length.
  generalize (trim title) (trim recipe) (trim (default "" imgType))
    (chk (default "" imgType)).
  intros t r i c.
  destruct (default false edit);
    destruct (bool_decide_reflect (t = "")) as [Ht|Ht];
    destruct (bool_decide_reflect (r = "")) as [Hr|Hr];
    destruct (bool_decide_reflect (i = "")) as [Hi|Hi];
    destruct c; cbn;
    match goal with
    | |- ?o = [] <-> _ =>
        let o' := eval vm_compute in o in change o with o'
    end;
    (split; [intros H; try discriminate H | intros H]); naive_solver.
Qed.

(** X5. The form check is the stricter of the two paths on a create: input
    that [errors] lets through is accepted by the schema of the server as
    soon as a file comes with it. *)
Theorem errors_empty_passes_schema (js : Js) (chk : string -> bool)
    (title recipe : string) (imgType : option string) (thumbnail : string) :
  errors chk (title, recipe, imgType) None = [] ->
  storeRecipe_validate js {| si_title := FText title; si_recipe := FText recipe;
                             si_thumbnail := Some thumbnail |}
  = inr {| sr_title := title; sr_recipe := recipe; sr_thumbnail := thumbnail |}.
Proof.
  unfold errors. rewrite !not_gt0_length, gt0_length. cbn [negb].
  destruct (bool_decide_reflect (trim title = "")) as [Ht|Ht%trim_nonempty];
    destruct (bool_decide_reflect (trim recipe = "")) as [Hr|Hr%trim_nonempty];
    destruct (bool_decide (trim (default "" imgType) = ""));
    destruct (chk (default "" imgType));
    try (intros H; vm_compute in H; discriminate H).
  intros _. apply storeRecipe_validate_inr.
  cbn [si_title si_recipe si_thumbnail sr_title sr_recipe sr_thumbnail].
  rewrite !string_required_text by assumption. auto.
Qed.

Lemma errors_empty_passes_schema_witness :
  storeRecipe_validate example_js
    {| si_title := FText "Soup"; si_recipe := FText "Boil water";
       si_thumbnail := Some "1704067200000-123456789.jpg" |}
  = inr {| sr_title := "Soup"; sr_recipe := "Boil water";
           sr_thumbnail := "1704067200000-123456789.jpg" |}.
Proof.
  exact (errors_empty_passes_schema example_js checkImageType "Soup" "Boil water"
           (Some "jpg") "1704067200000-123456789.jpg" eq_refl).
Defined.

(** The converse fails: the schema does not trim, [errors] does. *)
Example schema_accepts_blank_title :
  storeRecipe_validate example_js
    {| si_title := FText " "; si_recipe := FText "Boil water";
       si_thumbnail := Some "a.jpg" |}
  = inr {| sr_title := " "; sr_recipe := "Boil water"; sr_thumbnail := "a.jpg" |}
  ∧ errors checkImageType (" ", "Boil water", Some "jpg") None
    = [("title", VStr "Title is required.")].
Proof. split; reflexivity. Qed.

(** ** The handlers, case by case *)

(** X6. The codes each route answers with, and the one shape of a failure:
    whenever the code is not a success, the body is [{ error: m }] and [m]
    is what was logged last. *)
Theorem serve_answers (rq : Request) (e : Env) (w : World) :
  let o := serve rq e w in
  status (result o) ∈ (match rq with
                       | AddRecipe _ => [201; 400; 500]
                       | DeleteRecipe _ | UpdateRecipe _ => [200; 400; 404; 500]
                       end)
  ∧ (status (result o) < 400
     ∨ exists m, body (result o) = VObj [("error", m)]
                 ∧ last (logged (events o)) = Some m).
Proof.
  intros o. subst o. destruct rq as [req|req_body|req]; run; explore;
    (split; [rewrite ?elem_of_cons; auto 8
            |first [left; reflexivity | right; eexists; split; reflexivity]]).
Qed.

(** Brings the flags of the environment into the open. *)
Ltac open_env e :=
  let rowid := fresh "rowid" in
  destruct e as [rowid ? ? ? ? ? ? ?]; cbn in *; subst.

Lemma valid_text_store (js : Js) (req : Multipart) (t r : string) (f : File) :
  valid_text req t r -> file req = Some f ->
  storeRecipe_validate js
    {| si_title := body_title req; si_recipe := body_recipe req;
       si_thumbnail := match file req with
                       | Some f => Some (filename f)
                       | None => None
                       end |}
  = inr {| sr_title := t; sr_recipe := r; sr_thumbnail := filename f |}.
Proof.
  intros (Ht & Hnt & Hr & Hnr) Hf. apply storeRecipe_validate_inr.
  rewrite Hf, Ht, Hr.
  cbn [si_title si_recipe si_thumbnail sr_title sr_recipe sr_thumbnail].
  rewrite !string_required_text by assumption. auto.
Qed.

(** X7. A valid create that meets no failure answers 201 with the new row:
    the submitted title and recipe, the generated file name, an id one
    above the counter and the time of the insert. The row is in the
    table, the counter is advanced and the upload is on disk. *)
Theorem add_recipe_stores (req : Multipart) (e : Env) (w : World)
    (t r : string) (f : File) :
  valid_text req t r -> file req = Some f ->
  write_fails e = false -> reselect_fails e = false ->
  let o := serve (AddRecipe req) e w in
  let row := {| r_id := seq w + 1; r_title := t; r_recipe := r;
                r_thumbnail := filename f; r_timestamp := now e |} in
  result o = {| status := 201;
                body := VObj [("message", VStr "Recipe submitted successfully");
                              ("recipe", row_json (Some row))] |}
  ∧ table (world o) = <[seq w + 1 := row]> (table w)
  ∧ seq (world o) = seq w + 1
  ∧ files (world o) = {[thumbnail_path (filename f)]} ∪ files w.
Proof.
  intros Hvalid Hf Hwr Hre o row. subst o row.
  pose proof (valid_text_store (js e) req t r f Hvalid Hf) as Hv.
  open_env e. run. cbn [js]. rewrite Hv, Hf. cbn.
  rewrite lookup_insert_eq. cbn. auto.
Qed.

Lemma add_recipe_stores_witness :
  table (world (serve (AddRecipe soup) calm empty_world)) !! 1
  = Some {| r_id := 1; r_title := "Soup"; r_recipe := "Boil water";
            r_thumbnail := "1704067200000-123456789.jpg";
            r_timestamp := "2024-01-01 00:00:00" |}.
Proof.
  destruct (add_recipe_stores soup calm empty_world "Soup" "Boil water" soup_upload)
    as (_ & Htable & _); [repeat split; discriminate|reflexivity..|].
  rewrite Htable. apply lookup_insert_eq.
Defined.

(** X8. A valid create whose INSERT fails answers 500 and stores no row, and
    the upload stays on disk; one whose re-read fails answers 500 as well,
    though the row is stored. *)
Theorem add_recipe_store_failures (req : Multipart) (e : Env) (w : World)
    (t r : string) (f : File) :
  valid_text req t r -> file req = Some f ->
  let o := serve (AddRecipe req) e w in
  (write_fails e = true ->
   result o = {| status := 500;
                 body := VObj [("error", VStr "Error inserting recipe into DB")] |}
   ∧ table (world o) = table w ∧ seq (world o) = seq w
   ∧ files (world o) = {[thumbnail_path (filename f)]} ∪ files w)
  ∧ (write_fails e = false -> reselect_fails e = true ->
     result o = {| status := 500;
                   body := VObj [("error", VStr "Error retrieving inserted recipe")] |}
     ∧ table (world o) !! (seq w + 1)
       = Some {| r_id := seq w + 1; r_title := t; r_recipe := r;
                 r_thumbnail := filename f; r_timestamp := now e |}).
Proof.
  intros Hvalid Hf o. subst o.
  pose proof (valid_text_store (js e) req t r f Hvalid Hf) as Hv.
  split.
  - intros Hwr. open_env e. run. cbn [js]. rewrite Hv, Hf. cbn. auto.
  - intros Hwr Hre. open_env e. run. cbn [js]. rewrite Hv, Hf. cbn.
    rewrite lookup_insert_eq. auto.
Qed.

Lemma add_recipe_store_failures_witness :
  status (result (serve (AddRecipe soup) (set_write_fails true calm) empty_world))
  = 500
  ∧ table (world (serve (AddRecipe soup) (set_write_fails true calm) empty_world))
    = ∅.
Proof.
  destruct (add_recipe_store_failures soup (set_write_fails true calm) empty_world
              "Soup" "Boil water" soup_upload) as [H _];
    [repeat split; discriminate|reflexivity|].
  destruct (H eq_refl) as (Hres & Htable & _). rewrite Hres, Htable. split; reflexivity.
Defined.

(** X10. A request answered 400 or 404 has changed no row and unlinked no
    file, and the file it uploaded is left on disk. *)
Theorem rejected_upload_stays (rq : Request) (e : Env) (w : World) (f : File) :
  upload rq = Some f ->
  status (result (serve rq e w)) ∈ [400; 404] ->
  thumbnail_path (filename f) ∈ files (world (serve rq e w))
  ∧ table (world (serve rq e w)) = table w
  ∧ unlinked (events (serve rq e w)) = [].
Proof.
  intros Hup. destruct rq as [req|req_body|req]; cbn in Hup; [|discriminate|];
    run; rewrite Hup; explore; rewrite ?elem_of_cons, ?elem_of_nil;
    intros Hst; try (exfalso; intuition discriminate);
    (split; [apply elem_of_union_l, elem_of_singleton; reflexivity|auto]).
Qed.

Lemma rejected_upload_stays_witness :
  thumbnail_path (filename soup_upload)
    ∈ files (world (serve (AddRecipe untitled) calm empty_world))
  ∧ table (world (serve (AddRecipe untitled) calm empty_world)) = ∅
  ∧ unlinked (events (serve (AddRecipe untitled) calm empty_world)) = [].
Proof.
  apply (rejected_upload_stays (AddRecipe untitled) calm empty_world soup_upload);
    [reflexivity|left].
Defined.

(** X11. A delete of an existing row that meets no failure answers 200 with
    the id it was given, removes the row and unlinks its thumbnail; it
    does not matter whether the file was still there. *)
Theorem delete_recipe_removes (req_body : value) (e : Env) (w : World)
    (i : Z) (row : Recipe) :
  truthy (get_prop "id" req_body) = true ->
  sql_rowid e (get_prop "id" req_body) = Some i ->
  table w !! i = Some row ->
  unfailing e ->
  let o := serve (DeleteRecipe req_body) e w in
  result o = {| status := 200;
                body := VObj [("message", VStr "Recipe deleted successfully");
                              ("id", get_prop "id" req_body)] |}
  ∧ table (world o) = delete i (table w)
  ∧ files (world o) = files w ∖ {[thumbnail_path (r_thumbnail row)]}
  ∧ unlinked (events o) = [thumbnail_path (r_thumbnail row)].
Proof.
  intros Hid Hi Hrow (Hsel & Hwr & Hre & Hun) o. subst o.
  open_env e. run. rewrite Hid. cbn. rewrite Hi. cbn. rewrite Hrow. cbn.
  destruct (decide (_ ∈ _)) as [Hin|Hout]; cbn; rewrite Hi; cbn;
    (split; [reflexivity|split; [reflexivity|split; [|reflexivity]]]).
  - reflexivity.
  - symmetry. apply difference_disjoint_L, disjoint_singleton_r. exact Hout.
Qed.

Lemma delete_recipe_removes_witness :
  status (result (serve (DeleteRecipe delete_soup) calm soup_world)) = 200
  ∧ table (world (serve (DeleteRecipe delete_soup) calm soup_world)) !! 1 = None.
Proof.
  destruct (delete_recipe_removes delete_soup calm soup_world 1
              {| r_id := 1; r_title := "Soup"; r_recipe := "Boil water";
                 r_thumbnail := "1704067200000-123456789.jpg";
                 r_timestamp := "2024-01-01 00:00:00" |})
    as (Hres & Htable & _); [reflexivity..|repeat split|].
  rewrite Hres, Htable. split; [reflexivity|apply lookup_delete_eq].
Defined.

(** X12. A delete whose unlink fails for another reason than a missing file
    answers 500 and leaves the world as it was: the row is kept, and no
    DELETE statement is sent. *)
Theorem delete_recipe_keeps_row_on_file_error (req_body : value) (e : Env)
    (w : World) (i : Z) (row : Recipe) (c : string) :
  truthy (get_prop "id" req_body) = true ->
  select_fails e = false ->
  sql_rowid e (get_prop "id" req_body) = Some i ->
  table w !! i = Some row ->
  unlink_fails e = Some c -> c ≠ "ENOENT" ->
  let o := serve (DeleteRecipe req_body) e w in
  result o = {| status := 500;
                body := VObj [("error", VStr "Error deleting associated file")] |}
  ∧ world o = w
  ∧ statements (events o) = ["SELECT thumbnail FROM recipes WHERE id = ?"].
Proof.
  intros Hid Hsel Hi Hrow Hun Hc%String.eqb_neq o. subst o.
  open_env e. run. rewrite Hid. cbn. rewrite Hi. cbn. rewrite Hrow. cbn.
  rewrite Hc. cbn. auto.
Qed.

Lemma delete_recipe_keeps_row_on_file_error_witness :
  status (result (serve (DeleteRecipe delete_soup)
                    (set_unlink_fails (Some "EPERM") calm) soup_world)) = 500
  ∧ world (serve (DeleteRecipe delete_soup)
             (set_unlink_fails (Some "EPERM") calm) soup_world) = soup_world.
Proof.
  destruct (delete_recipe_keeps_row_on_file_error delete_soup
              (set_unlink_fails (Some "EPERM") calm) soup_world 1
              {| r_id := 1; r_title := "Soup"; r_recipe := "Boil water";
                 r_thumbnail := "1704067200000-123456789.jpg";
                 r_timestamp := "2024-01-01 00:00:00" |} "EPERM")
    as (Hres & Hworld & _); [reflexivity..|discriminate|].
  rewrite Hres, Hworld. split; reflexivity.
Defined.

(** X14. An edit that is valid and names no existing row answers 404: no
    UPDATE statement is sent, no file is unlinked and the table is as
    before. *)
Theorem update_recipe_unknown_id (req : Multipart) (e : Env) (w : World)
    (v : EditRecipe) :
  editRecipe_validate (js e)
    {| ei_id := body_id req; ei_title := body_title req;
       ei_recipe := body_recipe req |} = inr v ->
  result (db_get "SELECT thumbnail FROM recipes WHERE id = ?" select_fails
            (field_value (body_id req)) e w) = inr None ->
  let o := serve (UpdateRecipe req) e w in
  result o = {| status := 404; body := VObj [("error", VStr "Recipe not found")] |}
  ∧ table (world o) = table w
  ∧ statements (events o) = ["SELECT thumbnail FROM recipes WHERE id = ?"]
  ∧ unlinked (events o) = [].
Proof.
  intros Hv Hrow o. subst o. open_env e. run. cbn [js]. rewrite Hv.
  destruct select_fails0; [discriminate|]. cbn in Hrow. injection Hrow as Hrow.
  destruct (file req); cbn; rewrite Hrow; cbn; auto.
Qed.

Lemma update_recipe_unknown_id_witness :
  status (result (serve (UpdateRecipe soup_edit) calm empty_world)) = 404
  ∧ table (world (serve (UpdateRecipe soup_edit) calm empty_world)) = ∅.
Proof.
  destruct (update_recipe_unknown_id soup_edit calm empty_world
              {| er_id := "1"; er_title := "Soup"; er_recipe := "Simmer" |}
              eq_refl eq_refl) as (Hres & Htable & _).
  rewrite Hres, Htable. split; reflexivity.
Defined.

(** X15. A valid edit of an existing row whose statements do not fail answers
    200 with the row as it now is: the title and the recipe of the
    request as the table holds them (a string as it is, [true] and
    [false] as 1 and 0, a number as SQLite prints it), the name of the
    upload if there is one and the old thumbnail if not, the id and the
    timestamp it had. *)
Theorem update_recipe_rewrites_row (req : Multipart) (e : Env) (w : World)
    (v : EditRecipe) (i : Z) (row : Recipe) :
  editRecipe_validate (js e)
    {| ei_id := body_id req; ei_title := body_title req;
       ei_recipe := body_recipe req |} = inr v ->
  select_fails e = false -> write_fails e = false -> reselect_fails e = false ->
  sql_rowid e (field_value (body_id req)) = Some i ->
  table w !! i = Some row ->
  let o := serve (UpdateRecipe req) e w in
  let row' := {| r_id := r_id row; r_title := bound_text e (body_title req);
                 r_recipe := bound_text e (body_recipe req);
                 r_thumbnail := match file req with
                                | Some f => filename f
                                | None => r_thumbnail row
                                end;
                 r_timestamp := r_timestamp row |} in
  result o = {| status := 200;
                body := VObj [("message", VStr "Recipe updated successfully");
                              ("recipe", row_json (Some row'))] |}
  ∧ table (world o) = <[i := row']> (table w)
  ∧ (forall t, body_title req = FText t -> r_title row' = t)
  ∧ (forall r, body_recipe req = FText r -> r_recipe row' = r)
  ∧ (forall b, body_title req = FBool b -> r_title row' = if b then "1" else "0").
Proof.
  intros Hv Hsel Hwr Hre Hi Hrow o row'. subst o row'.
  split; [|split].
  3: { cbn. repeat split; intros ? ->; reflexivity. }
  all: open_env e; run; cbn [js]; rewrite Hv;
    destruct (file req) as [f|]; cbn; rewrite Hi; cbn; rewrite Hrow; cbn;
    try (destruct unlink_fails0 as [c|]; cbn;
         [destruct (String.eqb c "ENOENT")|destruct (decide (_ ∈ _))]; cbn);
    rewrite Hi; cbn; rewrite ?lookup_alter_eq, ?Hrow; cbn;
    try reflexivity;
    apply map_eq; intros k; rewrite lookup_alter, lookup_insert;
    destruct (decide (i = k)) as [<-|]; rewrite ?Hrow; reflexivity.
Qed.

Lemma update_recipe_rewrites_row_witness :
  table (world (serve (UpdateRecipe affirmed) calm soup_world)) !! 1
  = Some {| r_id := 1; r_title := "1"; r_recipe := "Simmer";
            r_thumbnail := "1704067200000-123456789.jpg";
            r_timestamp := "2024-01-01 00:00:00" |}.
Proof.
  destruct (update_recipe_rewrites_row affirmed calm soup_world
              {| er_id := "1"; er_title := "true"; er_recipe := "Simmer" |} 1
              {| r_id := 1; r_title := "Soup"; r_recipe := "Boil water";
                 r_thumbnail := "1704067200000-123456789.jpg";
                 r_timestamp := "2024-01-01 00:00:00" |}
              eq_refl eq_refl eq_refl eq_refl eq_refl eq_refl) as (_ & Htable & _).
  rewrite Htable. apply lookup_insert_eq.
Defined.

(** ** What a request leaves alone *)

Lemma update_target (req : Multipart) (e : Env) (w : World) (v : EditRecipe) :
  editRecipe_validate (js e)
    {| ei_id := body_id req; ei_title := body_title req;
       ei_recipe := body_recipe req |} = inr v ->
  target (UpdateRecipe req) e w = sql_rowid e (field_value (body_id req)).
Proof.
  intros Hv.
  destruct (proj1 (editRecipe_validate_accepts _ _) (ex_intro _ v Hv)) as [Hid _].
  cbn in Hid. cbn. destruct (body_id req); try contradiction; reflexivity.
Qed.

(** X19. A request reads or writes one row at most, the one it addresses:
    every other row is after the request what it was before. *)
Theorem serve_touches_one_row (rq : Request) (e : Env) (w : World) (j : Z) :
  target rq e w ≠ Some j ->
  table (world (serve rq e w)) !! j = table w !! j.
Proof.
  destruct rq as [req|req_body|req].
  - cbn [target]. intros Hj. run. explore; try reflexivity;
      apply lookup_insert_ne; congruence.
  - cbn [target]. intros Hj. run. explore; try reflexivity;
      apply lookup_delete_ne; congruence.
  - intros Hj. run.
    destruct (editRecipe_validate _ _) as [err|v] eqn:Hv;
      [destruct (file req); reflexivity|].
    rewrite (update_target req e w v Hv) in Hj.
    explore; try reflexivity; apply lookup_alter_ne; congruence.
Qed.

Lemma serve_touches_one_row_witness :
  table (world (serve (AddRecipe soup) calm soup_world)) !! 1
  = table soup_world !! 1.
Proof.
  apply (serve_touches_one_row (AddRecipe soup) calm soup_world 1). discriminate.
Defined.

(** X18. An edit neither adds nor removes a row, and never changes the id or
    the timestamp of one. *)
Theorem update_keeps_identity (req : Multipart) (e : Env) (w : World) (i : Z) :
  let o := serve (UpdateRecipe req) e w in
  r_id <$> table (world o) !! i = r_id <$> table w !! i
  ∧ r_timestamp <$> table (world o) !! i = r_timestamp <$> table w !! i.
Proof.
  intros o. subst o. run. explore; try (split; reflexivity);
    rewrite lookup_alter; destruct (decide (_ = i)) as [<-|];
    try (split; reflexivity);
    destruct (table w !! _); split; reflexivity.
Qed.

(** X20. The one file a request may unlink is the thumbnail of the row it
    addresses, as the table names it before the request: no path comes
    from the request itself. *)
Theorem unlinked_paths_are_stored (rq : Request) (e : Env) (w : World) :
  let o := serve rq e w in
  unlinked (events o) = []
  ∨ exists i row, target rq e w = Some i ∧ table w !! i = Some row
                  ∧ unlinked (events o) = [thumbnail_path (r_thumbnail row)].
Proof.
  intros o. subst o. destruct rq as [req|req_body|req].
  - left. run. explore; reflexivity.
  - cbn [target].
    destruct (sql_rowid e (get_prop "id" req_body)) as [i|] eqn:Hi;
      [destruct (table w !! i) as [row|] eqn:Hrow|];
      run; explore; try (left; reflexivity);
      right; exists i, row; auto.
  - run. destruct (editRecipe_validate _ _) as [err|v] eqn:Hv;
      [left; destruct (file req); reflexivity|].
    rewrite (update_target req e w v Hv).
    destruct (sql_rowid e (field_value (body_id req))) as [i|] eqn:Hi;
      [destruct (table w !! i) as [row|] eqn:Hrow|];
      explore; try (left; reflexivity);
      right; exists i, row; auto.
Qed.

(** X21. The files after a request are those before it and the upload, less
    what was unlinked: the server writes and removes nothing else. *)
Theorem files_change_as_traced (rq : Request) (e : Env) (w : World) :
  let o := serve rq e w in
  files (world o) ⊆ uploaded rq ∪ files w
  ∧ (uploaded rq ∪ files w) ∖ list_to_set (unlinked (events o)) ⊆ files (world o).
Proof.
  intros o. subst o. unfold uploaded.
  destruct rq as [req|req_body|req]; cbn [upload]; run; explore;
    change (path_join (destination "thumbnail") ?x) with (thumbnail_path x);
    change (path_join (path_join "public" "assets/images/thumbnail") ?x)
      with (thumbnail_path x);
    change (path_join "public/assets/images/thumbnail" ?x) with (thumbnail_path x);
    set_solver.
Qed.

(** X16. An edit with an upload whose unlink meets no failure has removed the
    old thumbnail and holds the new one, whether or not the UPDATE that
    follows succeeds. *)
Theorem update_recipe_swaps_files (req : Multipart) (e : Env) (w : World)
    (v : EditRecipe) (i : Z) (row : Recipe) (f : File) :
  editRecipe_validate (js e)
    {| ei_id := body_id req; ei_title := body_title req;
       ei_recipe := body_recipe req |} = inr v ->
  select_fails e = false -> unlink_fails e = None ->
  sql_rowid e (field_value (body_id req)) = Some i ->
  table w !! i = Some row ->
  file req = Some f ->
  let o := serve (UpdateRecipe req) e w in
  files (world o)
  = ({[thumbnail_path (filename f)]} ∪ files w)
      ∖ {[thumbnail_path (r_thumbnail row)]}
  ∧ unlinked (events o) = [thumbnail_path (r_thumbnail row)].
Proof.
  intros Hv Hsel Hun Hi Hrow Hf o. subst o. open_env e. run. cbn [js].
  rewrite Hv, Hf. cbn. rewrite Hi. cbn. rewrite Hrow. cbn.
  destruct (decide (_ ∈ _)) as [Hin|Hout]; cbn;
    destruct write_fails0; cbn; rewrite ?Hi; cbn;
    try destruct reselect_fails0; cbn;
    (split; [|reflexivity]); try reflexivity;
    symmetry; apply difference_disjoint_L, disjoint_singleton_r; exact Hout.
Qed.

Lemma update_recipe_swaps_files_witness :
  elements (files (world (serve (UpdateRecipe soup_retake) calm soup_world)))
  = [thumbnail_path "1704070800000-42.png"].
Proof.
  destruct (update_recipe_swaps_files soup_retake calm soup_world
              {| er_id := "1"; er_title := "Soup"; er_recipe := "Simmer" |} 1
              {| r_id := 1; r_title := "Soup"; r_recipe := "Boil water";
                 r_thumbnail := "1704067200000-123456789.jpg";
                 r_timestamp := "2024-01-01 00:00:00" |} new_upload
              eq_refl eq_refl eq_refl eq_refl eq_refl eq_refl) as [Hfiles _].
  rewrite Hfiles. reflexivity.
Defined.

(** ** Invariants of the table *)

Lemma alter_present {A} (f : A -> A) (m : gmap Z A) (i : Z) (x : A) :
  m !! i = Some x -> alter f i m = <[i := f x]> m.
Proof.
  intros Hx. apply map_eq. intros j. rewrite lookup_alter, lookup_insert.
  destruct (decide (i = j)) as [<-|]; [rewrite Hx|]; reflexivity.
Qed.

Lemma bound_text_nonempty (e : Env) (v : field) : filled v -> bound_text e v ≠ "".
Proof.
  destruct v as [| |[|a t]|[]|n|items|props plain]; cbn;
    try contradiction; try congruence; discriminate.
Qed.

Lemma serve_table_step (rq : Request) (e : Env) (w : World) :
  table_step e w (world (serve rq e w)).
Proof.
  destruct rq as [req|req_body|req].
  - run. destruct (storeRecipe_validate _ _) as [err|v] eqn:Hv.
    + explore; apply step_none; reflexivity.
    + apply storeRecipe_validate_inr in Hv as (Ht & Hr & _).
      apply string_required_cast in Ht as [Ht ->], Hr as [Hr ->].
      apply (cast_text_nonempty (js e)) in Ht, Hr.
      explore; try (apply step_none; reflexivity);
        (eapply step_insert; [| |reflexivity|reflexivity]; assumption).
  - destruct (sql_rowid e (get_prop "id" req_body)) as [i|] eqn:Hi;
      [destruct (table w !! i) as [row|] eqn:Hrow|];
      run; explore; try (apply step_none; reflexivity);
      eapply step_delete; reflexivity.
  - run. destruct (editRecipe_validate _ _) as [err|v] eqn:Hv.
    + explore; apply step_none; reflexivity.
    + destruct (proj1 (editRecipe_validate_accepts _ _) (ex_intro _ v Hv))
        as (_ & Ht & Hr).
      cbn [ei_title ei_recipe] in Ht, Hr.
      apply (bound_text_nonempty e) in Ht, Hr.
      destruct (sql_rowid e (field_value (body_id req))) as [i|] eqn:Hi;
        [destruct (table w !! i) as [row|] eqn:Hrow|];
        explore; try (apply step_none; reflexivity);
        rewrite (alter_present _ _ _ _ Hrow);
        (eapply step_rewrite; [eassumption| | |reflexivity|reflexivity];
         assumption).
Qed.

(** X22. In every reachable state a row is stored under its own id, ids are
    positive, and none exceeds the counter. *)
Theorem reachable_ids (w : World) :
  reachable w ->
  0 ≤ seq w
  ∧ forall i r, table w !! i = Some r -> r_id r = i ∧ 0 < i ≤ seq w.
Proof.
  induction 1 as [fs|e rq w Hreach [Hseq IH]]; cbn.
  - split; [reflexivity|]. intros i r Hr. rewrite lookup_empty in Hr. discriminate.
  - destruct (serve_table_step rq e w)
      as [Ht Hs|t r th _ _ Ht Hs|j Ht Hs|j row t r th Hrow _ _ Ht Hs];
      rewrite Ht, Hs; (split; [lia|]); intros i x.
    + apply IH.
    + rewrite lookup_insert. destruct (decide (seq w + 1 = i)) as [<-|].
      * intros [= <-]. cbn. lia.
      * intros Hx. destruct (IH i x Hx). lia.
    + rewrite lookup_delete. destruct (decide (j = i)); [discriminate|]. apply IH.
    + rewrite lookup_insert. destruct (decide (j = i)) as [<-|]; [|apply IH].
      intros [= <-]. cbn. apply IH, Hrow.
Qed.

Lemma reachable_ids_witness :
  0 ≤ seq soup_world
  ∧ forall i r, table soup_world !! i = Some r -> r_id r = i ∧ 0 < i ≤ seq soup_world.
Proof.
  apply reachable_ids. apply (reachable_serve calm (AddRecipe soup)).
  apply (reachable_start ∅).
Defined.

(** X23. Ids are not reused. The counter never decreases; an id at or below
    the counter that names no row names none after any request either;
    and a row appears only under the id one above the counter, which the
    counter then takes. *)
Theorem ids_never_reused (rq : Request) (e : Env) (w : World) :
  let w' := world (serve rq e w) in
  seq w ≤ seq w'
  ∧ (forall i, i ≤ seq w -> table w !! i = None -> table w' !! i = None)
  ∧ (forall i, table w !! i = None -> is_Some (table w' !! i) ->
       i = seq w + 1 ∧ seq w' = seq w + 1).
Proof.
  intros w'. subst w'.
  destruct (serve_table_step rq e w)
    as [Ht Hs|t r th _ _ Ht Hs|j Ht Hs|j row t r th Hrow _ _ Ht Hs];
    rewrite Ht, Hs; (split; [lia|split]); intros i.
  - auto.
  - intros Hnone [x Hx]. congruence.
  - intros Hi Hnone. rewrite lookup_insert_ne by lia. exact Hnone.
  - intros Hnone [x Hx]. rewrite lookup_insert in Hx.
    destruct (decide (seq w + 1 = i)) as [<-|]; [auto|congruence].
  - intros _ Hnone. rewrite lookup_delete.
    destruct (decide (j = i)); [reflexivity|exact Hnone].
  - intros Hnone [x Hx]. rewrite lookup_delete in Hx.
    destruct (decide (j = i)); [discriminate|congruence].
  - intros _ Hnone. rewrite lookup_insert_ne by congruence. exact Hnone.
  - intros Hnone [x Hx]. rewrite lookup_insert in Hx.
    destruct (decide (j = i)) as [<-|]; congruence.
Qed.

(** After the soup recipe was deleted, a create gets the id 2: the id 1
    stays unused, and the counter has gone from 1 to 2. *)
Example ids_never_reused_after_delete :
  let w := world (serve (DeleteRecipe delete_soup) calm soup_world) in
  let w' := world (serve (AddRecipe soup) calm w) in
  seq w = 1 ∧ table w !! 1 = None
  ∧ seq w' = 2 ∧ table w' !! 1 = None ∧ is_Some (table w' !! 2).
Proof. cbv zeta. repeat split; try reflexivity. eexists; reflexivity. Qed.

(** X24. In every reachable state the title and the recipe of every row are
    non-empty. *)
Theorem reachable_text_nonempty (w : World) :
  reachable w ->
  forall i r, table w !! i = Some r -> r_title r ≠ "" ∧ r_recipe r ≠ "".
Proof.
  induction 1 as [fs|e rq w Hreach IH]; cbn.
  - intros i r Hr. rewrite lookup_empty in Hr. discriminate.
  - destruct (serve_table_step rq e w)
      as [Ht Hs|t r th Hnt Hnr Ht Hs|j Ht Hs|j row t r th Hrow Hnt Hnr Ht Hs];
      rewrite Ht; intros i x.
    + apply IH.
    + rewrite lookup_insert. destruct (decide (seq w + 1 = i)); [|apply IH].
      intros [= <-]. cbn. auto.
    + rewrite lookup_delete. destruct (decide (j = i)); [discriminate|]. apply IH.
    + rewrite lookup_insert. destruct (decide (j = i)); [|apply IH].
      intros [= <-]. cbn. auto.
Qed.

Lemma reachable_text_nonempty_witness :
  exists r, table soup_world !! 1 = Some r ∧ r_title r ≠ "" ∧ r_recipe r ≠ "".
Proof.
  eexists. split; [reflexivity|].
  apply (reachable_text_nonempty soup_world) with (i := 1); [|reflexivity].
  apply (reachable_serve calm (AddRecipe soup)). apply (reachable_start ∅).
Defined.

(** ** Requests in sequence *)

(** X25. Creating a recipe and deleting it by the id of the answer restores
    the table and the files; only the counter has advanced. *)
Theorem add_then_delete_restores (req : Multipart) (e : Env) (w : World)
    (t r : string) (f : File) :
  valid_text req t r -> file req = Some f -> unfailing e ->
  0 ≤ seq w -> table w !! (seq w + 1) = None ->
  thumbnail_path (filename f) ∉ files w ->
  let id := VNum (Finite (inject_Z (seq w + 1))) in
  sql_rowid e id = Some (seq w + 1) ->
  let w1 := world (serve (AddRecipe req) e w) in
  let o := serve (DeleteRecipe (VObj [("id", id)])) e w1 in
  status (result o) = 200
  ∧ table (world o) = table w
  ∧ files (world o) = files w
  ∧ seq (world o) = seq w + 1.
Proof.
  intros Hvalid Hf (Hsel & Hwr & Hre & Hun) Hseq Hnone Hfresh id Hid w1 o.
  subst id w1 o.
  pose proof (valid_text_store (js e) req t r f Hvalid Hf) as Hv.
  assert (Hz : (seq w + 1 =? 0) = false) by (apply Z.eqb_neq; lia).
  open_env e. run. cbn [js].
  change (get_prop "id" (VObj [("id", ?x)])) with x.
  rewrite Hv, Hf. cbn. rewrite Hz. cbn.
  rewrite Hid. cbn. rewrite lookup_insert_eq. cbn.
  rewrite decide_True by (apply elem_of_union_l, elem_of_singleton; reflexivity).
  cbn. rewrite Hid. cbn.
  split; [reflexivity|]. split; [apply delete_insert_id, Hnone|].
  split; [|reflexivity].
  change (path_join (destination "thumbnail") (filename f))
    with (thumbnail_path (filename f)).
  change (path_join (path_join "public" "assets/images/thumbnail") (filename f))
    with (thumbnail_path (filename f)).
  set_solver.
Qed.

Lemma add_then_delete_restores_witness :
  let w1 := world (serve (AddRecipe soup) calm empty_world) in
  let o := serve (DeleteRecipe (VObj [("id", VNum (Finite (inject_Z 1)))])) calm w1 in
  status (result o) = 200 ∧ table (world o) = ∅ ∧ files (world o) = ∅
  ∧ seq (world o) = 1.
Proof.
  apply (add_then_delete_restores soup calm empty_world "Soup" "Boil water"
           soup_upload);
    [repeat split; discriminate|reflexivity|repeat split|reflexivity|reflexivity
    |apply not_elem_of_empty|reflexivity].
Defined.

(** X13. A row that was deleted is no longer retrievable: the same delete,
    sent again, is answered 404 and changes nothing. *)
Theorem delete_recipe_twice (req_body : value) (e : Env) (w : World)
    (i : Z) (row : Recipe) :
  truthy (get_prop "id" req_body) = true ->
  sql_rowid e (get_prop "id" req_body) = Some i ->
  table w !! i = Some row ->
  unfailing e ->
  let w1 := world (serve (DeleteRecipe req_body) e w) in
  result (serve (DeleteRecipe req_body) e w1)
  = {| status := 404; body := VObj [("error", VStr "Recipe not found")] |}
  ∧ world (serve (DeleteRecipe req_body) e w1) = w1.
Proof.
  intros Hid Hi Hrow (Hsel & Hwr & Hre & Hun) w1. subst w1.
  open_env e. run. rewrite Hid. cbn. rewrite Hi. cbn. rewrite Hrow. cbn.
  destruct (decide (_ ∈ _)); cbn; rewrite Hi; cbn;
    rewrite lookup_delete_eq; cbn; auto.
Qed.

Lemma delete_recipe_twice_witness :
  status (result (serve (DeleteRecipe delete_soup) calm
                    (world (serve (DeleteRecipe delete_soup) calm soup_world))))
  = 404.
Proof.
  destruct (delete_recipe_twice delete_soup calm soup_world 1
              {| r_id := 1; r_title := "Soup"; r_recipe := "Boil water";
                 r_thumbnail := "1704067200000-123456789.jpg";
                 r_timestamp := "2024-01-01 00:00:00" |})
    as [Hres _]; [reflexivity..|repeat split|].
  cbv zeta in Hres. rewrite Hres. reflexivity.
Defined.

(** X26. Deleting a file is idempotent: without a failure of its own the
    deletion resolves, the file is gone and the others are untouched, and
    a second deletion resolves again and changes nothing. *)
Theorem deleteFile_idempotent (filePath : string) (e : Env) (w : World) :
  unlink_fails e = None ->
  let w1 := world (deleteFile filePath e w) in
  result (deleteFile filePath e w) = inr tt
  ∧ files w1 = files w ∖ {[filePath]}
  ∧ table w1 = table w
  ∧ result (deleteFile filePath e w1) = inr tt
  ∧ world (deleteFile filePath e w1) = w1.
Proof.
  intros Hun w1. subst w1. run. rewrite Hun.
  destruct (decide (filePath ∈ files w)) as [Hin|Hout]; cbn.
  - rewrite decide_False by set_solver. cbn. auto.
  - rewrite decide_False by exact Hout. cbn.
    repeat split; try reflexivity.
    symmetry. apply difference_disjoint_L, disjoint_singleton_r, Hout.
Qed.

Lemma deleteFile_idempotent_witness :
  let p := thumbnail_path "1704067200000-123456789.jpg" in
  result (deleteFile p calm soup_world) = inr tt
  ∧ elements (files (world (deleteFile p calm soup_world))) = [].
Proof.
  destruct (deleteFile_idempotent (thumbnail_path "1704067200000-123456789.jpg")
              calm soup_world eq_refl) as (Hres & Hfiles & _).
  cbv zeta in *. rewrite Hres, Hfiles. split; reflexivity.
Defined.

(** ** Reading the table *)

(** X27. GET /get-recipes changes nothing. When the query fails the answer is
    500; otherwise it is 200 with an array that holds the rows of the
    table, each one once. *)
Theorem get_recipes_lists_table (e : Env) (w : World) :
  let o := get_recipes e w in
  world o = w
  ∧ unlinked (events o) = []
  ∧ if select_fails e
    then result o = {| status := 500;
                       body := VObj [("error", VStr "Error retrieving data")] |}
    else exists rows,
        result o = {| status := 200;
                      body := VArr ((fun row => row_json (Some row)) <$> rows) |}
        ∧ (forall r, r ∈ rows <-> exists i, table w !! i = Some r)
        ∧ length rows = size (table w).
Proof.
  intros o. subst o. unfold get_recipes, db_all. run.
  destruct (select_fails e); cbn; (split; [reflexivity|split; [reflexivity|]]);
    [reflexivity|].
  exists (rows_by_id (table w)). split; [reflexivity|]. unfold rows_by_id. split.
  - intros r. rewrite list_elem_of_fmap. split.
    + intros ([i x] & -> & Hin). rewrite merge_sort_Permutation in Hin.
      apply elem_of_map_to_list in Hin. eauto.
    + intros [i Hi]. exists (i, r). split; [reflexivity|].
      rewrite merge_sort_Permutation. apply elem_of_map_to_list. exact Hi.
  - rewrite length_fmap, merge_sort_Permutation. apply length_map_to_list.
Qed.

(** ** Names of uploads *)

Lemma pretty_N_char_digit (x : N) : is_digit (pretty_N_char x) = true.
Proof. unfold pretty_N_char. repeat case_match; reflexivity. Qed.

Lemma pretty_N_go_digits (x : N) (s : string) :
  all_digits s = true -> all_digits (pretty_N_go x s) = true.
Proof.
  revert s. induction (N.lt_wf_0 x) as [x _ IH]; intros s Hs.
  destruct (decide (x = 0)%N) as [->|Hx]; [rewrite pretty_N_go_0; exact Hs|].
  rewrite pretty_N_go_step by lia. apply IH.
  - apply N.div_lt; lia.
  - cbn. rewrite pretty_N_char_digit. exact Hs.
Qed.

Lemma pretty_N_digits (x : N) : all_digits (pretty x) = true.
Proof.
  unfold pretty, pretty_N. destruct (decide (x = 0)%N); [reflexivity|].
  apply pretty_N_go_digits. reflexivity.
Qed.

Lemma string_app_nil (e : string) : "" +:+ e = e.
Proof. reflexivity. Qed.

Lemma string_app_cons (x : ascii) (a e : string) :
  String x a +:+ e = String x (a +:+ e).
Proof. reflexivity. Qed.

Lemma string_app_assoc (a b c : string) : (a +:+ b) +:+ c = a +:+ (b +:+ c).
Proof.
  induction a as [|x a IH]; [reflexivity|].
  rewrite !string_app_cons. f_equal. exact IH.
Qed.

(** A run of digits is told apart from what follows it, as long as that
    begins with something that is no digit. *)
Lemma digits_prefix_unique (a a' e e' : string) :
  all_digits a = true -> all_digits a' = true ->
  (e = "" ∨ exists c s, e = String c s ∧ is_digit c = false) ->
  (e' = "" ∨ exists c s, e' = String c s ∧ is_digit c = false) ->
  a +:+ e = a' +:+ e' -> a = a' ∧ e = e'.
Proof.
  revert a'. induction a as [|x a IH]; intros [|x' a'] Ha Ha' He He';
    rewrite ?string_app_nil, ?string_app_cons; cbn in Ha, Ha'.
  - auto.
  - apply andb_prop in Ha' as [Hx' _].
    destruct He as [->|(c & s & -> & Hc)]; [discriminate|].
    intros [= -> _]. congruence.
  - apply andb_prop in Ha as [Hx _].
    destruct He' as [->|(c & s & -> & Hc)]; [discriminate|].
    intros [= <- _]. congruence.
  - apply andb_prop in Ha as [_ Ha]. apply andb_prop in Ha' as [_ Ha'].
    intros [= <- Heq]. destruct (IH a' Ha Ha' He He' Heq) as [-> ->]. auto.
Qed.

Lemma dotted_no_digit (ext : string) :
  dotted ext -> ext = "" ∨ exists c s, ext = String c s ∧ is_digit c = false.
Proof. intros [->|[s ->]]; [left|right; eexists _, _]; eauto. Qed.

(** X28. Two uploads get the same name only if they agree on the millisecond,
    on the random number and on the extension. *)
Theorem storage_filename_distinct (extname : string -> string)
    (now1 rnd1 now2 rnd2 : N) (name1 name2 : string) :
  (forall name, dotted (extname name)) ->
  now1 ≠ now2 ∨ rnd1 ≠ rnd2 ∨ extname name1 ≠ extname name2 ->
  storage_filename extname now1 rnd1 name1
  ≠ storage_filename extname now2 rnd2 name2.
Proof.
  intros Hext Hdiff Heq. unfold storage_filename in Heq.
  rewrite !string_app_assoc in Heq.
  apply (digits_prefix_unique (pretty now1) (pretty now2)) in Heq
    as [Hnow Hrest];
    try apply pretty_N_digits;
    try (right; eexists _, _; split; reflexivity).
  rewrite !string_app_cons, !string_app_nil in Hrest.
  injection Hrest as Hrest.
  apply (digits_prefix_unique (pretty rnd1) (pretty rnd2)) in Hrest
    as [Hrnd Hx];
    try apply pretty_N_digits; try apply dotted_no_digit, Hext.
  apply (inj pretty) in Hnow. apply (inj pretty) in Hrnd.
  destruct Hdiff as [?|[?|?]]; contradiction.
Qed.

Lemma storage_filename_distinct_witness :
  storage_filename (fun _ => ".jpg") 1704067200000 123456789 "soup.jpg"
  ≠ storage_filename (fun _ => ".jpg") 1704067200000 123456790 "soup.jpg".
Proof.
  apply storage_filename_distinct.
  - intros name. right. exists "jpg". reflexivity.
  - right. left. discriminate.
Defined.

Lemma has_char_app (c : ascii) (a b : string) :
  has_char c (a +:+ b) = has_char c a || has_char c b.
Proof.
  induction a as [|x a IH]; [reflexivity|].
  rewrite string_app_cons. cbn. rewrite IH. apply orb_assoc.
Qed.

Lemma digits_no_slash (s : string) :
  all_digits s = true -> has_char "/" s = false.
Proof.
  induction s as [|a s IH]; cbn; [reflexivity|].
  intros [Ha Hs]%andb_prop. rewrite (IH Hs), orb_false_r.
  destruct (Ascii.eqb_spec a "/") as [->|]; [discriminate|reflexivity].
Qed.

(** X29. A generated name holds no path separator unless the extension does,
    so that joining it to a directory names a file of that directory. *)
Theorem storage_filename_no_separator (extname : string -> string)
    (date_now random : N) (originalname : string) :
  has_char "/" (extname originalname) = false ->
  has_char "/" (storage_filename extname date_now random originalname) = false.
Proof.
  intros Hext. unfold storage_filename. rewrite !has_char_app, Hext.
  rewrite (digits_no_slash (pretty date_now)), (digits_no_slash (pretty random))
    by apply pretty_N_digits.
  reflexivity.
Qed.

Lemma storage_filename_no_separator_witness :
  has_char "/" (storage_filename (fun _ => ".jpg") 1704067200000 123456789
                  "../../soup.jpg") = false.
Proof. apply storage_filename_no_separator. reflexivity. Defined.

(** ** Rejections in full *)





(** A title that the form sends twice is an array: the edit is answered
    400 with a type error, though id, title and recipe are all there. A
    title [true] in a JSON body is accepted, and the table holds 1. *)
Example update_recipe_array_and_boolean :
  let twice := title_sent_twice in
  let yes := affirmed in
  result (serve (UpdateRecipe twice) calm soup_world)
  = {| status := 400;
       body := VObj [("error",
                      VObj [("title",
                             VStr ("title must be a `string` type, but the final value was: `"
                                   +:+ print_value (js calm) (VArr [VStr "a"; VStr "b"])
                                   +:+ "`."))])] |}
  ∧ status (result (serve (UpdateRecipe yes) calm soup_world)) = 200
  ∧ r_title <$> table (world (serve (UpdateRecipe yes) calm soup_world)) !! 1
    = Some "1".
Proof. repeat split; reflexivity. Qed.

(** A title sent as [title[en]] reaches the schema as an object: the
    create is answered 400 with a type error, and the upload stays. *)
Example add_recipe_bracketed_title :
  let bracketed := {| body_id := FUndefined;
                      body_title := FObj [("en", VStr "Soup")] eq_refl;
                      body_recipe := FText "Boil water";
                      file := Some soup_upload |} in
  let o := serve (AddRecipe bracketed) calm empty_world in
  result o
  = {| status := 400;
       body := VObj [("error",
                      VObj (text_error (js calm) "title" (body_title bracketed)))] |}
  ∧ table (world o) = ∅
  ∧ elements (files (world o)) = [thumbnail_path (filename soup_upload)].
Proof. repeat split; reflexivity. Qed.
